(** * generate_arcade_files.py: the project-snapshot collector

    A shallow embedding of [generate_arcade_project_files] and of the
    library calls it relies on ([open] in text mode, [os.walk],
    [pathlib.Path]), followed by the properties of the collector.

    Conventions.
    - A Python [str] is a list of code points ([N]); a file on disk is a
      list of bytes.
    - Paths are POSIX paths: the separator is [/] and the text sink writes
      a newline as the single byte 10.
    - Every effect of the function (a [print], a [write] on the sink, an
      [open] of an input file) is an event of a chronological trace.
    - What can go wrong: the sink cannot be opened because its name is
      taken by a directory; an entry is gone when the loop reaches it;
      [Path.exists()] raises instead of answering; a file cannot be opened
      or read; its bytes are not UTF-8; the sink cannot encode the path of
      a file (a name with a lone surrogate, as [os.walk] makes from bytes
      that are not UTF-8).
    - What is taken for granted: the working directory can be listed and
      written to, an output file that is already there can be read and
      written, and the console takes every line ([print] does not
      raise). *)

From Stdlib Require Import List NArith Arith Bool Lia.
From Stdlib.Strings Require Import String Ascii Byte.
From Stdlib Require Import DecimalString.
Import ListNotations.

Local Open Scope N_scope.
Local Open Scope list_scope.

(** ** Python strings *)

Definition str := list N.

(** An ASCII literal of the source. *)
Definition lit (s : string) : str :=
  map N_of_ascii (list_ascii_of_string s).

Definition newline : N := 10.
Definition carriage_return : N := 13.
Definition dquote : N := 34.
Definition dot : N := 46.
Definition slash : N := 47.

Fixpoint str_eqb (a b : str) : bool :=
  match a, b with
  | [], [] => true
  | x :: a', y :: b' => (x =? y) && str_eqb a' b'
  | _, _ => false
  end.

(** [s.startswith(p)] *)
Fixpoint starts_with (p s : str) : bool :=
  match p, s with
  | [], _ => true
  | x :: p', y :: s' => (x =? y) && starts_with p' s'
  | _ :: _, [] => false
  end.

(** [sub in s] on strings: [sub] occurs in [s] as a contiguous run. *)
Fixpoint str_in (sub s : str) : bool :=
  starts_with sub s ||
  match s with
  | [] => false
  | _ :: s' => str_in sub s'
  end.

(** [s.rfind(c)]: the last index of [c]; [None] stands for Python's -1. *)
Fixpoint rfind (c : N) (s : str) : option nat :=
  match s with
  | [] => None
  | x :: s' =>
      match rfind c s' with
      | Some i => Some (S i)
      | None => if x =? c then Some O else None
      end
  end.

(** [str(n)] for a non-negative integer. *)
Definition str_of_nat (n : nat) : str :=
  lit (NilZero.string_of_uint (Nat.to_uint n)).

(** ** Text decoding and encoding *)

Definition bytes := list byte.

Definition in_range (lo hi n : N) : bool := (lo <=? n) && (n <=? hi).

Definition continuation (n : N) : bool := in_range 128 191 n.

(** The strict UTF-8 decoder ([errors='strict']): shortest forms only, no
    surrogates, nothing above U+10FFFF.  [None] is [UnicodeDecodeError]. *)
Fixpoint utf8_decode (bs : bytes) : option str :=
  match bs with
  | [] => Some []
  | b0 :: r0 =>
      let n0 := Byte.to_N b0 in
      if n0 <? 128 then option_map (cons n0) (utf8_decode r0)
      else if in_range 194 223 n0 then
        match r0 with
        | b1 :: r1 =>
            let n1 := Byte.to_N b1 in
            if continuation n1
            then option_map (cons ((n0 - 192) * 64 + (n1 - 128)))
                            (utf8_decode r1)
            else None
        | _ => None
        end
      else if in_range 224 239 n0 then
        match r0 with
        | b1 :: b2 :: r2 =>
            let n1 := Byte.to_N b1 in
            let n2 := Byte.to_N b2 in
            let lo := if n0 =? 224 then 160 else 128 in
            let hi := if n0 =? 237 then 159 else 191 in
            if in_range lo hi n1 && continuation n2
            then option_map
                   (cons ((n0 - 224) * 4096 + (n1 - 128) * 64 + (n2 - 128)))
                   (utf8_decode r2)
            else None
        | _ => None
        end
      else if in_range 240 244 n0 then
        match r0 with
        | b1 :: b2 :: b3 :: r3 =>
            let n1 := Byte.to_N b1 in
            let n2 := Byte.to_N b2 in
            let n3 := Byte.to_N b3 in
            let lo := if n0 =? 240 then 144 else 128 in
            let hi := if n0 =? 244 then 143 else 191 in
            if in_range lo hi n1 && continuation n2 && continuation n3
            then option_map
                   (cons ((n0 - 240) * 262144 + (n1 - 128) * 4096
                          + (n2 - 128) * 64 + (n3 - 128)))
                   (utf8_decode r3)
            else None
        | _ => None
        end
      else None
  end.

(** The bytes of an ASCII text, for examples. *)
Definition ascii_bytes (s : string) : bytes := list_byte_of_string s.

(** The Latin-1 decoder: one code point per byte, defined on every byte. *)
Definition latin1_decode (bs : bytes) : str := map Byte.to_N bs.

(** Universal-newline translation of a text stream opened for reading with
    the default [newline=None]: [\r\n] and a lone [\r] are handed to the
    caller as [\n]. *)
Fixpoint universal_newlines (t : str) : str :=
  match t with
  | [] => []
  | c :: r =>
      if c =? carriage_return then
        match r with
        | d :: r' =>
            if d =? newline then newline :: universal_newlines r'
            else newline :: universal_newlines r
        | [] => [newline]
        end
      else c :: universal_newlines r
  end.

Definition byte_of (n : N) : byte :=
  match Byte.of_N n with
  | Some b => b
  | None => Byte.x00
  end.

Definition utf8_encode_char (c : N) : bytes :=
  if c <? 128 then [byte_of c]
  else if c <? 2048 then [byte_of (192 + c / 64); byte_of (128 + c mod 64)]
  else if c <? 65536 then
    [byte_of (224 + c / 4096); byte_of (128 + (c / 64) mod 64);
     byte_of (128 + c mod 64)]
  else
    [byte_of (240 + c / 262144); byte_of (128 + (c / 4096) mod 64);
     byte_of (128 + (c / 64) mod 64); byte_of (128 + c mod 64)].

(** What the sink, opened with [encoding='utf-8'], puts on disk for [t]. *)
Definition utf8_encode (t : str) : bytes := flat_map utf8_encode_char t.

(** A Unicode scalar value: a code point that is not a surrogate. *)
Definition scalar (c : N) : bool :=
  (c <? 55296) || ((57344 <=? c) && (c <=? 1114111)).

(** The strict UTF-8 encoder of the sink accepts [t]: [write(t)] does not
    raise [UnicodeEncodeError]. *)
Definition encodable (t : str) : bool := forallb scalar t.

(** The index of the first code point of [t] that the encoder refuses. *)
Fixpoint bad_start (t : str) : nat :=
  match t with
  | [] => O
  | c :: r => if scalar c then S (bad_start r) else O
  end.

(** The number of refused code points at the head of [t]. *)
Fixpoint bad_run (t : str) : nat :=
  match t with
  | [] => O
  | c :: r => if scalar c then O else S (bad_run r)
  end.

Definition hex_digit (n : N) : N := if n <? 10 then 48 + n else 87 + n.

(** [c] as four lower-case hexadecimal digits ([%04x]). *)
Definition hex4 (c : N) : str :=
  map hex_digit [(c / 4096) mod 16; (c / 256) mod 16; (c / 16) mod 16;
                 c mod 16].

(** [str(e)] for the [UnicodeEncodeError] that [write(t)] raises: the
    encoder reports the first run of surrogates of [t], by position. *)
Definition encode_error (t : str) : str :=
  let i := bad_start t in
  match skipn i t with
  | [] => []
  | c :: r =>
      match bad_run r with
      | O =>
          lit "'utf-8' codec can't encode character '\u" ++ hex4 c
          ++ lit "' in position " ++ str_of_nat i
          ++ lit ": surrogates not allowed"
      | S k =>
          lit "'utf-8' codec can't encode characters in position "
          ++ str_of_nat i ++ 45 :: str_of_nat (i + S k)
          ++ lit ": surrogates not allowed"
      end
  end.

(** ** Paths *)

(** [sep.join(l)] *)
Fixpoint str_join (sep : str) (l : list str) : str :=
  match l with
  | [] => []
  | [x] => x
  | x :: l' => x ++ sep ++ str_join sep l'
  end.

(** [os.path.join(top, name)] for a relative [name] and a [top] that does
    not end with the separator. *)
Definition os_path_join (top name : str) : str := top ++ slash :: name.

(** The [root] string that [os.walk('.')] yields for the directory reached
    from the working directory through [parts]: ".", "./a", "./a/b", ... *)
Definition walk_root (parts : list str) : str :=
  fold_left os_path_join parts (lit ".").

(** [str((Path(root) / file).relative_to('.'))]: pathlib drops the leading
    "." component, so the path is the directory names and the file name
    joined by the separator. *)
Definition rel_path (parts : list str) (file : str) : str :=
  str_join [slash] (parts ++ [file]).

(** [PurePath.suffix] of a path whose final component is [name]:
    [i = name.rfind('.')], and [name[i:]] when [0 < i < len(name) - 1],
    else the empty string. *)
Definition suffix (name : str) : str :=
  match rfind dot name with
  | Some i =>
      if (Nat.ltb 0 i && Nat.ltb i (List.length name - 1))%bool
      then skipn i name
      else []
  | None => []
  end.

(** ** The file system *)

(** What [open(path, 'r').read()] finds before decoding: the bytes of the
    file, or an [OSError] with its message. *)
Inductive read_result :=
| ReadOk (data : bytes)
| ReadError (msg : str).

(** A non-directory entry of a listing.  [f_exists] is the answer of
    [Path.exists()] when the loop reaches the entry (false for an entry that
    vanished after the listing, or a dangling link); [f_read] is what the
    first [open] finds and [f_reread] what the second one (the Latin-1
    retry) finds.  [f_stat_raises] says that [Path.exists()] does not
    answer: its [os.stat] fails with an error other than a missing entry
    and the error is raised ([PermissionError] for an entry of a directory
    that may be listed but not searched). *)
Record file := mkFile {
  f_exists : bool;
  f_read : read_result;
  f_reread : read_result;
  f_stat_raises : bool
}.

(** A regular file that stays as it is while the program runs. *)
Definition regular (data : bytes) : file :=
  mkFile true (ReadOk data) (ReadOk data) false.

(** A directory: its non-directory entries and its sub-directories, each in
    the order in which [os.scandir] lists them. *)
#[warnings="-register-all"]
Inductive dir :=
| Dir (files : list (str * file)) (dirs : list (str * dir)).

Definition dir_files (d : dir) : list (str * file) :=
  match d with Dir files _ => files end.

Definition dir_dirs (d : dir) : list (str * dir) :=
  match d with Dir _ dirs => dirs end.

Definition has_name {A : Type} (n : str) (l : list (str * A)) : bool :=
  existsb (fun e => str_eqb (fst e) n) l.

(** Replace the entry called [n] where it stands. *)
Fixpoint set_entry {A : Type} (n : str) (v : A) (l : list (str * A))
  : list (str * A) :=
  match l with
  | [] => []
  | (m, w) :: l' =>
      if str_eqb m n then (m, v) :: l' else (m, w) :: set_entry n v l'
  end.

Definition insert_at {A : Type} (i : nat) (x : A) (l : list A) : list A :=
  firstn i l ++ x :: skipn i l.

(** ** Effects *)

Inductive encoding := utf_8 | latin_1.

Inductive event :=
| EvPrint (line : str)                                   (* print(line) *)
| EvWrite (s : str)                                      (* outfile.write(s) *)
| EvOpen (parts : list str) (name : str) (enc : encoding).
                                      (* open(file_path, 'r', encoding=enc) *)

(** The arguments of the [outfile.write] calls of a trace, in order. *)
Fixpoint written (tr : list event) : list str :=
  match tr with
  | [] => []
  | EvWrite s :: tr' => s :: written tr'
  | _ :: tr' => written tr'
  end.

(** The console lines of a trace, in order. *)
Fixpoint console (tr : list event) : list str :=
  match tr with
  | [] => []
  | EvPrint s :: tr' => s :: console tr'
  | _ :: tr' => console tr'
  end.

(** One unit of output: the file it was made from and the text between the
    two delimiter lines. *)
Record block := mkBlock {
  b_parts : list str;
  b_name : str;
  b_content : str
}.

(** The four [outfile.write] calls of lines 46-49 (and 60-63). *)
Definition block_writes (b : block) : list str :=
  [ lit "My " ++ rel_path (b_parts b) (b_name b) ++ [58; newline; newline];
    [dquote; newline];
    b_content b;
    [newline; dquote; newline; newline] ].

(** The header line of a block and the blank line after it. *)
Definition block_header (b : block) : str :=
  lit "My " ++ rel_path (b_parts b) (b_name b) ++ [58; newline; newline].

(** The text of a block as it stands in the output document. *)
Definition block_text (b : block) : str := List.concat (block_writes b).

(** The state of a run.  [trace] and [file_count] are the program's;
    [emitted] is a history variable: at each [file_count += 1] it records
    which file the block just written came from and with what content.
    [raised] says that an exception has left the loop uncaught: nothing of
    the function runs after that. *)
Record state := mkState {
  trace : list event;
  file_count : nat;
  emitted : list block;
  raised : bool
}.

Definition init_state : state := mkState [] 0 [] false.

Definition emit (ev : list event) (st : state) : state :=
  mkState (trace st ++ ev) (file_count st) (emitted st) (raised st).

(** An exception that no handler catches. *)
Definition raise_uncaught (st : state) : state :=
  mkState (trace st) (file_count st) (emitted st) true.

Definition py_print (line : str) (st : state) : state :=
  emit [EvPrint line] st.

(** Lines 46-50 and 60-64 when the sink can encode the header: the four
    writes, then [file_count += 1]. *)
Definition write_block (b : block) (st : state) : state :=
  mkState (trace st ++ map EvWrite (block_writes b))
          (S (file_count st))
          (emitted st ++ [b])
          (raised st).

Definition output_file : str := lit "arcade_project_complete.txt".
Definition node_modules : str := lit "node_modules".
Definition package_lock : str := lit "package-lock.json".

Definition binary_suffixes : list str :=
  [lit ".png"; lit ".jpg"; lit ".jpeg"; lit ".gif"; lit ".ico"; lit ".pem"].

(** [x in l] on a list of strings. *)
Definition str_mem (x : str) (l : list str) : bool :=
  existsb (str_eqb x) l.

Definition check_mark : N := 10003.          (* U+2713 *)
Definition check_box : N := 9989.            (* U+2705 *)
Definition bullet : N := 8226.               (* U+2022 *)
Definition folder : N := 128193.             (* U+1F4C1 *)
Definition no_entry : N := 9940.             (* U+26D4 *)

(** ** The collector *)

Section Collector.

(** Two facts of the platform that the source does not fix.
    [visible ws] is the part of the sink that has reached the disk once
    the write calls [ws] have been made (the sink is buffered);
    [slot names] is the place [os.scandir] gives a newly created entry
    among the entries [names] of the working directory. *)
Variable visible : list str -> bytes.
Variable slot : list str -> nat.

(** The bytes of the sink file as another reader sees them during the
    run: nothing before the first write. *)
Definition on_disk (ws : list str) : bytes :=
  match ws with
  | [] => []
  | _ :: _ => visible ws
  end.

(** [open(output_file, 'w', encoding='utf-8')], line 10: the file is
    created in the working directory, or truncated where it stands.  It
    fails ([None]) when the name is taken by a directory. *)
Definition open_sink (cwd : dir) : option dir :=
  match cwd with
  | Dir files dirs =>
      if has_name output_file dirs then None
      else if has_name output_file files
      then Some (Dir (set_entry output_file (regular []) files) dirs)
      else Some (Dir (insert_at (slot (map fst files))
                                (output_file, regular []) files) dirs)
  end.

(** Leaving the [with] block: the sink is flushed and closed. *)
Definition close_sink (d : dir) (data : bytes) : dir :=
  match d with
  | Dir files dirs => Dir (set_entry output_file (regular data) files) dirs
  end.

(** The entry [name] of the directory [parts] is the open sink itself. *)
Definition is_sink (parts : list str) (name : str) : bool :=
  match parts with
  | [] => str_eqb name output_file
  | _ :: _ => false
  end.

(** [file_path.exists()], line 29, raises.  The sink was just created by
    this process, so the call answers for it. *)
Definition stat_raises (parts : list str) (name : str) (f : file) : bool :=
  if is_sink parts name then false else f_stat_raises f.

(** The answer of [file_path.exists()], line 29, when it answers. *)
Definition path_exists (parts : list str) (name : str) (f : file) : bool :=
  if is_sink parts name then true else f_exists f.

(** [open(file_path, 'r', encoding=enc)] followed by [infile.read()],
    before decoding. *)
Definition open_read (st : state) (parts : list str) (name : str)
           (f : file) (enc : encoding) : read_result :=
  if is_sink parts name then ReadOk (on_disk (written (trace st)))
  else match enc with
       | utf_8 => f_read f
       | latin_1 => f_reread f
       end.

(** The body of [for file in files], lines 22-70.  [Path.exists()] is
    called outside the [try]: when it raises, the exception leaves the
    function.  The first [write] of a block encodes the header, and
    raises [UnicodeEncodeError] before anything is written when the path
    has a code point the encoder refuses: on the UTF-8 path the handler of
    line 69 prints the error, on the Latin-1 path the bare [except] of
    line 66 prints its line. *)
Definition process_file (parts : list str) (st : state)
           (entry : str * file) : state :=
  let (name, f) := entry in
  if raised st then st
  else if str_eqb name package_lock then st
  else if stat_raises parts name f then raise_uncaught st
  else if negb (path_exists parts name f) then st
  else
    let rel := rel_path parts name in
    let header := lit "My " ++ rel ++ [58; newline; newline] in
    if str_mem (suffix name) binary_suffixes
    then py_print (lit "Skipping binary file: " ++ rel) st
    else
      let st1 := emit [EvOpen parts name utf_8] st in
      match open_read st1 parts name f utf_8 with
      | ReadError msg =>
          py_print (lit "Error reading " ++ rel ++ lit ": " ++ msg) st1
      | ReadOk data =>
          match utf8_decode data with
          | Some text =>
              if encodable header
              then py_print (check_mark :: lit " Added: " ++ rel)
                     (write_block
                        (mkBlock parts name (universal_newlines text)) st1)
              else py_print (lit "Error reading " ++ rel ++ lit ": "
                             ++ encode_error header) st1
          | None =>
              let st2 := emit [EvOpen parts name latin_1] st1 in
              match open_read st2 parts name f latin_1 with
              | ReadError _ =>
                  py_print (lit "Skipping unreadable file: " ++ rel) st2
              | ReadOk data' =>
                  if encodable header
                  then py_print
                         (check_mark :: lit " Added (latin-1): " ++ rel)
                         (write_block
                            (mkBlock parts name
                               (universal_newlines (latin1_decode data')))
                            st2)
                  else py_print (lit "Skipping unreadable file: " ++ rel)
                         st2
              end
          end
      end.

(** [for root, dirs, files in os.walk('.')], lines 13-70, top-down: the
    directory itself, then each directory left in [dirs].  A root whose
    string contains 'node_modules' is passed over by [continue] before
    [dirs] is touched, so the walk goes on below it; otherwise [dirs]
    loses the entries equal to 'node_modules' and the files are
    processed. *)
Fixpoint walk (parts : list str) (d : dir) (st : state) {struct d}
  : state :=
  match d with
  | Dir files dirs =>
      let skip := str_in node_modules (walk_root parts) in
      let st1 := if skip then st
                 else fold_left (process_file parts) files st in
      (fix each (l : list (str * dir)) (st : state) {struct l} : state :=
         match l with
         | [] => st
         | (n, sub) :: l' =>
             if (negb skip && str_eqb n node_modules)%bool
             then each l' st
             else each l' (walk (parts ++ [n]) sub st)
         end) dirs st1
  end.

(** The summary, lines 72-83. *)
Definition summary (count : nat) : list str :=
  [ newline :: check_box :: lit " Output generated: " ++ output_file;
    check_box :: lit " Total files processed: " ++ str_of_nat count;
    newline :: folder :: lit " Project structure processed:";
    lit "  " ++ bullet :: lit " All root files";
    lit "  " ++ bullet :: lit " src/ directory and all subdirectories";
    lit "  " ++ bullet :: lit " public/ directory";
    lit "  " ++ bullet :: lit " All configuration files";
    newline :: no_entry :: lit " Files excluded:";
    lit "  " ++ bullet :: lit " node_modules/ directory";
    lit "  " ++ bullet :: lit " package-lock.json";
    lit "  " ++ bullet
      :: lit " Binary image files (.png, .jpg, .jpeg, .gif, .ico)";
    lit "  " ++ bullet :: lit " SSL certificate files (.pem)" ].

(** The bytes of the output file once the sink is closed. *)
Definition output_bytes (st : state) : bytes :=
  utf8_encode (List.concat (written (trace st))).

(** The whole function on the working directory [cwd]: [None] when an
    exception leaves it (the sink cannot be opened, or [Path.exists()]
    raised during the walk), else the working directory as the run leaves
    it together with the final state. *)
Definition generate_arcade_project_files (cwd : dir)
  : option (dir * state) :=
  match open_sink cwd with
  | None => None
  | Some d =>
      let st := walk [] d init_state in
      if raised st then None
      else Some (close_sink d (output_bytes st),
                 emit (map EvPrint (summary (file_count st))) st)
  end.

End Collector.

(** ** Specification-side notions *)

(** The working directory is well formed when no directory lists a name
    twice. *)
Fixpoint unique_names (d : dir) : Prop :=
  match d with
  | Dir files dirs =>
      NoDup (map fst files) /\ NoDup (map fst dirs) /\
      (fix all (l : list (str * dir)) : Prop :=
         match l with
         | [] => True
         | (_, sub) :: l' => unique_names sub /\ all l'
         end) dirs
  end.

(** [file_at d parts name f]: going down from [d] through the directories
    [parts] one finds the entry [name], which is [f]. *)
Inductive file_at : dir -> list str -> str -> file -> Prop :=
| file_here files dirs name f :
    In (name, f) files -> file_at (Dir files dirs) [] name f
| file_below files dirs n sub parts name f :
    In (n, sub) dirs -> file_at sub parts name f ->
    file_at (Dir files dirs) (n :: parts) name f.

(** The rule of lines 36-38. *)
Definition binary_excluded (name : str) : bool :=
  str_mem (suffix name) binary_suffixes.

Fixpoint parts_eqb (p q : list str) : bool :=
  match p, q with
  | [], [] => true
  | x :: p', y :: q' => str_eqb x y && parts_eqb p' q'
  | _, _ => false
  end.

(** A block comes from the file [name] of the directory [parts]. *)
Definition block_for (parts : list str) (name : str) (b : block) : bool :=
  (parts_eqb (b_parts b) parts && str_eqb (b_name b) name)%bool.

(** Grouping the write calls of a run four by four into blocks: header,
    opening delimiter, content, closing delimiter.  [None] when the calls
    do not split into whole blocks. *)
Fixpoint parse_blocks (ws : list str) : option (list (str * str)) :=
  match ws with
  | [] => Some []
  | h :: q :: c :: t :: ws' =>
      if (starts_with (lit "My ") h
          && str_eqb q [dquote; newline]
          && str_eqb t [newline; dquote; newline; newline])%bool
      then option_map (cons (h, c)) (parse_blocks ws')
      else None
  | _ => None
  end.

(** Where the reader of a trace stands: the input file opened since the
    last printed line and the last finished block, if any, and the number
    of write calls made into the block under way. *)
Definition cursor : Type := option (list str * str) * nat.

Definition idle : cursor := (None, O).

(** One event seen from a cursor.  A file is opened, and a line is
    printed, only between blocks.  A write call needs a file opened just
    before the block: the first call is the header of that very file, the
    second and the fourth are the delimiter lines, and the fourth ends the
    block. *)
Definition follow_event (cur : cursor) (ev : event) : option cursor :=
  match ev, cur with
  | EvOpen parts name _, (_, O) => Some (Some (parts, name), O)
  | EvPrint _, (_, O) => Some idle
  | EvWrite s, (Some (parts, name), k) =>
      match k with
      | O =>
          if str_eqb s (block_header (mkBlock parts name []))
          then Some (Some (parts, name), 1%nat) else None
      | S O =>
          if str_eqb s [dquote; newline]
          then Some (Some (parts, name), 2%nat) else None
      | S (S O) => Some (Some (parts, name), 3%nat)
      | S (S (S O)) =>
          if str_eqb s [newline; dquote; newline; newline]
          then Some idle else None
      | _ => None
      end
  | _, _ => None
  end.

(** Reading a trace from a cursor; [None] when an event is out of place. *)
Fixpoint follow (cur : cursor) (tr : list event) : option cursor :=
  match tr with
  | [] => Some cur
  | ev :: tr' =>
      match follow_event cur ev with
      | Some cur' => follow cur' tr'
      | None => None
      end
  end.

(** The entries on which the body of [for file in files] runs, in order,
    each with the directory it was listed in. *)
Fixpoint visited (parts : list str) (d : dir) {struct d}
  : list (list str * (str * file)) :=
  match d with
  | Dir files dirs =>
      let skip := str_in node_modules (walk_root parts) in
      (if skip then [] else map (pair parts) files) ++
      (fix each (l : list (str * dir)) {struct l} :=
         match l with
         | [] => []
         | (n, sub) :: l' =>
             if (negb skip && str_eqb n node_modules)%bool
             then each l'
             else visited (parts ++ [n]) sub ++ each l'
         end) dirs
  end.

(** The directories of a listing that the walk goes into. *)
Definition descended (skip : bool) (dirs : list (str * dir))
  : list (str * dir) :=
  filter (fun e => negb (negb skip && str_eqb (fst e) node_modules)) dirs.

(** The loop body on an entry paired with the directory it is in. *)
Definition body (visible : list str -> bytes) (st : state)
           (e : list str * (str * file)) : state :=
  process_file visible (fst e) st (snd e).

(** The entry passes the three tests of lines 23, 29 and 36. *)
Definition eligible (parts : list str) (name : str) (f : file) : bool :=
  (negb (str_eqb name package_lock) && path_exists parts name f
   && negb (binary_excluded name))%bool.

(** The text the two [read] attempts of lines 42-43 and 57-58 end up
    with, if any. *)
Definition decoded (visible : list str -> bytes) (st : state)
           (parts : list str) (name : str) (f : file) : option str :=
  match open_read visible st parts name f utf_8 with
  | ReadError _ => None
  | ReadOk data =>
      match utf8_decode data with
      | Some text => Some (universal_newlines text)
      | None =>
          match open_read visible st parts name f latin_1 with
          | ReadError _ => None
          | ReadOk data' => Some (universal_newlines (latin1_decode data'))
          end
      end
  end.

(** The output file of a working directory, if it has one. *)
Definition output_of (d : dir) : option file :=
  option_map snd
    (find (fun e => str_eqb (fst e) output_file) (dir_files d)).

(** The place of an entry in the tree: its directory and its name. *)
Definition entry_path (e : list str * (str * file)) : list str * str :=
  (fst e, fst (snd e)).

(** The walk of the working directory [cwd] reaches the entry: it is in
    the tree, it is not the output file itself, and the root string of its
    directory does not mention node_modules. *)
Definition reached (cwd : dir) (parts : list str) (name : str) (f : file)
  : Prop :=
  file_at cwd parts name f /\
  is_sink parts name = false /\
  str_in node_modules (walk_root parts) = false.

(** What a run that returns leaves: the working directory and the final
    state (for a run that does not return, an empty directory and the
    initial state stand in). *)
Definition run_of (visible : list str -> bytes) (slot : list str -> nat)
           (cwd : dir) : dir * state :=
  match generate_arcade_project_files visible slot cwd with
  | Some r => r
  | None => (Dir [] [], init_state)
  end.

(** The run returns. *)
Definition returns (visible : list str -> bytes) (slot : list str -> nat)
           (cwd : dir) : bool :=
  match generate_arcade_project_files visible slot cwd with
  | Some _ => true
  | None => false
  end.

(** Two concrete platforms for the examples: a sink of which nothing
    reaches the disk before it is closed, and a listing that shows a new
    entry last. *)
Definition unflushed : list str -> bytes := fun _ => [].
Definition listed_last : list str -> nat := fun names => List.length names.

(** A small project: a text file, an image, the lock file, an entry that
    vanished after the listing, a file that is not UTF-8, a source
    directory and a node_modules directory. *)
Definition sample_tree : dir :=
  Dir [ (lit "a.txt", regular (ascii_bytes "hello"));
        (lit "logo.png", regular [Byte.x89; Byte.x50; Byte.x4e; Byte.x47]);
        (package_lock, regular (ascii_bytes "{}"));
        (lit "gone.txt", mkFile false (ReadError []) (ReadError []) false);
        (lit "notes.dat", regular [Byte.xff; Byte.x41]) ]
      [ (lit "src", Dir [(lit "b.js", regular (ascii_bytes "x = 1"))] []);
        (node_modules,
         Dir [(lit "c.js", regular (ascii_bytes "y = 2"))] []) ].

(** A text file with a Windows line end: a CR LF b. *)
Definition crlf_tree : dir :=
  Dir [(lit "a.txt", regular [Byte.x61; Byte.x0d; Byte.x0a; Byte.x62])] [].

(** A file that is not UTF-8 and has a Windows line end: FF CR LF. *)
Definition latin1_crlf_tree : dir :=
  Dir [(lit "a.txt", regular [Byte.xff; Byte.x0d; Byte.x0a])] [].

(** ** Further notions *)

(** What one run of the loop body does to the state it starts from, named
    after the branch taken. *)
Inductive outcome (visible : list str -> bytes) (parts : list str)
          (name : str) (f : file) (s : state) : state -> Prop :=
| not_run :
    raised s = true ->
    outcome visible parts name f s s
| stat_failed :
    raised s = false ->
    str_eqb name package_lock = false ->
    stat_raises parts name f = true ->
    outcome visible parts name f s (raise_uncaught s)
| passed_over :
    eligible parts name f = false ->
    (str_eqb name package_lock || negb (path_exists parts name f))%bool
    = true ->
    outcome visible parts name f s s
| skipped_binary :
    eligible parts name f = false ->
    str_eqb name package_lock = false ->
    path_exists parts name f = true ->
    binary_excluded name = true ->
    outcome visible parts name f s
      (py_print (lit "Skipping binary file: " ++ rel_path parts name) s)
| read_failed msg :
    eligible parts name f = true ->
    open_read visible s parts name f utf_8 = ReadError msg ->
    outcome visible parts name f s
      (py_print (lit "Error reading " ++ rel_path parts name
                 ++ lit ": " ++ msg)
         (emit [EvOpen parts name utf_8] s))
| added data text :
    eligible parts name f = true ->
    open_read visible s parts name f utf_8 = ReadOk data ->
    utf8_decode data = Some text ->
    encodable (rel_path parts name) = true ->
    outcome visible parts name f s
      (py_print (check_mark :: lit " Added: " ++ rel_path parts name)
         (write_block (mkBlock parts name (universal_newlines text))
            (emit [EvOpen parts name utf_8] s)))
| write_refused data text :
    eligible parts name f = true ->
    open_read visible s parts name f utf_8 = ReadOk data ->
    utf8_decode data = Some text ->
    encodable (rel_path parts name) = false ->
    outcome visible parts name f s
      (py_print (lit "Error reading " ++ rel_path parts name ++ lit ": "
                 ++ encode_error (block_header (mkBlock parts name [])))
         (emit [EvOpen parts name utf_8] s))
| added_latin1 data data' :
    eligible parts name f = true ->
    open_read visible s parts name f utf_8 = ReadOk data ->
    utf8_decode data = None ->
    open_read visible s parts name f latin_1 = ReadOk data' ->
    encodable (rel_path parts name) = true ->
    outcome visible parts name f s
      (py_print (check_mark :: lit " Added (latin-1): "
                 ++ rel_path parts name)
         (write_block
            (mkBlock parts name (universal_newlines (latin1_decode data')))
            (emit [EvOpen parts name utf_8; EvOpen parts name latin_1] s)))
| retry_failed data :
    eligible parts name f = true ->
    open_read visible s parts name f utf_8 = ReadOk data ->
    utf8_decode data = None ->
    (encodable (rel_path parts name) = false \/
     exists msg, open_read visible s parts name f latin_1 = ReadError msg) ->
    outcome visible parts name f s
      (py_print (lit "Skipping unreadable file: " ++ rel_path parts name)
         (emit [EvOpen parts name utf_8; EvOpen parts name latin_1] s)).

(** The reads of an input file end with a text: the first read gives
    UTF-8 bytes, or the retry can read the file. *)
Definition yields_text (f : file) : bool :=
  match f_read f with
  | ReadError _ => false
  | ReadOk data =>
      match utf8_decode data with
      | Some _ => true
      | None =>
          match f_reread f with
          | ReadOk _ => true
          | ReadError _ => false
          end
      end
  end.

(** The entry is an input file that gets a block: it is not the output
    file, it passes the tests of lines 23, 29 and 36, its reads end with a
    text and the sink can encode its path. *)
Definition gets_block (e : list str * (str * file)) : bool :=
  (negb (is_sink (fst e) (fst (snd e)))
   && eligible (fst e) (fst (snd e)) (snd (snd e))
   && yields_text (snd (snd e))
   && encodable (rel_path (fst e) (fst (snd e))))%bool.

(** Where a block comes from. *)
Definition block_place (b : block) : list str * str := (b_parts b, b_name b).

(** A text of Unicode scalar values. *)
Definition scalar_text (t : str) : Prop :=
  Forall (fun c => scalar c = true) t.

(** Every name of the tree is a text of scalar values. *)
Fixpoint scalar_names (d : dir) : Prop :=
  match d with
  | Dir files dirs =>
      Forall (fun e => scalar_text (fst e)) files /\
      (fix all (l : list (str * dir)) : Prop :=
         match l with
         | [] => True
         | (n, sub) :: l' => scalar_text n /\ scalar_names sub /\ all l'
         end) dirs
  end.

(** A name without the path separator. *)
Definition slash_free (n : str) : Prop := ~ In slash n.

(** The entries of a listing other than the output file. *)
Definition inputs_of (files : list (str * file)) : list (str * file) :=
  filter (fun e => negb (str_eqb (fst e) output_file)) files.

(** A block that is not the one of the output file itself. *)
Definition from_input (b : block) : bool :=
  negb (block_for [] output_file b).

(** A third platform for the examples: a sink of which every write call
    reaches the disk at once. *)
Definition flushed : list str -> bytes :=
  fun ws => utf8_encode (List.concat ws).

(** A project with a file that cannot be opened and a file that is not
    UTF-8 and cannot be opened a second time. *)
Definition locked_tree : dir :=
  Dir [ (lit "secret.txt",
         mkFile true (ReadError (lit "Permission denied"))
                (ReadError (lit "Permission denied")) false);
        (lit "moving.dat",
         mkFile true (ReadOk [Byte.xff; Byte.x41])
                (ReadError (lit "No such file or directory")) false) ]
      [].


(** A project with a directory that may be listed but not searched:
    [Path.exists()] raises for its entry. *)
Definition unsearchable_tree : dir :=
  Dir [ (lit "z.txt", regular (ascii_bytes "hi")) ]
      [ (lit "locked",
         Dir [ (lit "a.txt",
                mkFile false (ReadError (lit "Permission denied"))
                       (ReadError (lit "Permission denied")) true) ]
             []) ].


(** ** Induction on directory trees *)

Section DirInduction.

Variable P : dir -> Prop.
Hypothesis step :
  forall files dirs, Forall (fun e => P (snd e)) dirs -> P (Dir files dirs).

Fixpoint dir_induction (d : dir) : P d :=
  match d with
  | Dir files dirs =>
      step files dirs
        ((fix all (l : list (str * dir)) : Forall (fun e => P (snd e)) l :=
            match l with
            | [] => Forall_nil _
            | e :: l' => Forall_cons e (dir_induction (snd e)) (all l')
            end) dirs)
  end.

End DirInduction.

(** * Properties *)

(** ** Strings *)

Lemma str_eqb_refl (a : str) : str_eqb a a = true.
Proof.
  induction a as [|x a IH]; simpl; [reflexivity|].
  now rewrite N.eqb_refl, IH.
Qed.

Lemma str_eqb_eq (a b : str) : str_eqb a b = true <-> a = b.
Proof.
  split.
  - revert b; induction a as [|x a IH]; intros [|y b]; simpl;
      try discriminate; [reflexivity|].
    intros H. apply andb_true_iff in H as [Hx Hr].
    apply N.eqb_eq in Hx. apply IH in Hr. now subst.
  - intros ->. apply str_eqb_refl.
Qed.

Lemma str_eqb_neq (a b : str) : str_eqb a b = false <-> a <> b.
Proof.
  rewrite <- str_eqb_eq. destruct (str_eqb a b); split; congruence.
Qed.

Lemma parts_eqb_eq (p q : list str) : parts_eqb p q = true <-> p = q.
Proof.
  split.
  - revert q; induction p as [|x p IH]; intros [|y q]; simpl;
      try discriminate; [reflexivity|].
    intros H. apply andb_true_iff in H as [Hx Hr].
    apply str_eqb_eq in Hx. apply IH in Hr. now subst.
  - intros ->. induction q as [|y q IH]; simpl; [reflexivity|].
    now rewrite str_eqb_refl, IH.
Qed.

Lemma str_mem_In (x : str) (l : list str) : str_mem x l = true <-> In x l.
Proof.
  unfold str_mem. rewrite existsb_exists. split.
  - intros [y [Hy He]]. apply str_eqb_eq in He. now subst.
  - intros H. exists x. split; [assumption | apply str_eqb_refl].
Qed.

Lemma starts_with_app (p a : str) : starts_with p (p ++ a) = true.
Proof.
  induction p as [|x p IH]; simpl; [reflexivity|].
  now rewrite N.eqb_refl, IH.
Qed.

Lemma starts_with_app_r (p s a : str) :
  starts_with p s = true -> starts_with p (s ++ a) = true.
Proof.
  revert s; induction p as [|x p IH]; intros [|y s]; simpl;
    try discriminate; try reflexivity.
  intros H. apply andb_true_iff in H as [Hx Hr].
  now rewrite Hx, (IH _ Hr).
Qed.

Lemma str_in_app_r (sub s a : str) :
  str_in sub s = true -> str_in sub (s ++ a) = true.
Proof.
  induction s as [|y s IH]; simpl.
  - rewrite orb_false_r. intros H.
    destruct sub; [|discriminate]. now destruct a.
  - intros H. apply orb_true_iff in H as [H|H].
    + change (y :: s ++ a) with ((y :: s) ++ a).
      now rewrite (starts_with_app_r _ _ _ H).
    + rewrite (IH H). apply orb_true_r.
Qed.

Lemma str_in_app_l (sub a s : str) :
  str_in sub s = true -> str_in sub (a ++ s) = true.
Proof.
  intros H. induction a as [|y a IH]; simpl; [assumption|].
  rewrite IH. apply orb_true_r.
Qed.

Lemma str_in_self (s a : str) : str_in s (s ++ a) = true.
Proof.
  destruct s as [|x s]; [now destruct a|].
  cbn [str_in app]. change (x :: s ++ a) with ((x :: s) ++ a).
  now rewrite starts_with_app.
Qed.

(** ** Paths *)

Lemma walk_root_snoc (parts : list str) (n : str) :
  walk_root (parts ++ [n]) = walk_root parts ++ slash :: n.
Proof. unfold walk_root. now rewrite fold_left_app. Qed.

Lemma walk_root_app (p q : list str) :
  exists tail, walk_root (p ++ q) = walk_root p ++ tail.
Proof.
  induction q as [|n q IH] using rev_ind.
  - exists []. now rewrite !app_nil_r.
  - destruct IH as [tail IH]. exists (tail ++ slash :: n).
    now rewrite app_assoc, walk_root_snoc, IH, <- app_assoc.
Qed.

(** A root below a root that mentions [sub] mentions it too. *)
Lemma str_in_walk_root_below (sub : str) (p q : list str) :
  str_in sub (walk_root p) = true -> str_in sub (walk_root (p ++ q)) = true.
Proof.
  intros H. destruct (walk_root_app p q) as [tail ->].
  now apply str_in_app_r.
Qed.

(** A directory called [n] on the way puts [n] into the root string. *)
Lemma str_in_walk_root_part (n : str) (parts : list str) :
  In n parts -> str_in n (walk_root parts) = true.
Proof.
  induction parts as [|m parts IH] using rev_ind; [intros []|].
  intros H. apply in_app_or in H as [H|[->|[]]].
  - rewrite walk_root_snoc. apply str_in_app_r. now apply IH.
  - rewrite walk_root_snoc. apply str_in_app_l.
    change (slash :: n) with ([slash] ++ n). apply str_in_app_l.
    rewrite <- (app_nil_r n) at 2. apply str_in_self.
Qed.

(** ** Traces *)

Lemma written_app (a b : list event) :
  written (a ++ b) = written a ++ written b.
Proof.
  induction a as [|[s|s|p n e] a IH]; simpl; [reflexivity| |f_equal|];
    assumption.
Qed.

Lemma written_writes (l : list str) : written (map EvWrite l) = l.
Proof. induction l as [|s l IH]; simpl; [reflexivity | now f_equal]. Qed.

Lemma written_prints (l : list str) : written (map EvPrint l) = [].
Proof. induction l as [|s l IH]; simpl; [reflexivity | assumption]. Qed.

(** ** The walk as a loop over a list *)

Lemma visited_unfold (parts : list str) (files : list (str * file))
      (dirs : list (str * dir)) :
  visited parts (Dir files dirs) =
  (if str_in node_modules (walk_root parts) then []
   else map (pair parts) files) ++
  flat_map (fun e => visited (parts ++ [fst e]) (snd e))
           (descended (str_in node_modules (walk_root parts)) dirs).
Proof.
  cbn [visited]. f_equal.
  generalize (str_in node_modules (walk_root parts)) as skip. intros skip.
  induction dirs as [|[n sub] dirs IH]; [reflexivity|].
  cbn [descended filter fst snd flat_map].
  destruct (negb skip && str_eqb n node_modules)%bool; cbn [negb].
  - exact IH.
  - cbn [flat_map fst snd]. f_equal. exact IH.
Qed.

Section WalkFacts.

Variable visible : list str -> bytes.

Lemma walk_unfold (parts : list str) (files : list (str * file))
      (dirs : list (str * dir)) (st : state) :
  walk visible parts (Dir files dirs) st =
  fold_left (fun s e => walk visible (parts ++ [fst e]) (snd e) s)
    (descended (str_in node_modules (walk_root parts)) dirs)
    (if str_in node_modules (walk_root parts) then st
     else fold_left (process_file visible parts) files st).
Proof.
  cbn [walk].
  generalize (if str_in node_modules (walk_root parts) then st
              else fold_left (process_file visible parts) files st).
  generalize (str_in node_modules (walk_root parts)) as skip.
  intros skip.
  induction dirs as [|[n sub] dirs IH]; intros s; [reflexivity|].
  cbn [descended filter fst snd].
  destruct (negb skip && str_eqb n node_modules)%bool; cbn [negb].
  - apply IH.
  - cbn [fold_left fst snd]. apply IH.
Qed.

(** The walk runs the loop body on the visited entries, in order. *)
Lemma walk_visited (d : dir) :
  forall parts st,
    walk visible parts d st = fold_left (body visible) (visited parts d) st.
Proof.
  induction d as [files dirs IH] using dir_induction.
  intros parts st. rewrite walk_unfold, visited_unfold, fold_left_app.
  assert (Hfiles :
    (if str_in node_modules (walk_root parts) then st
     else fold_left (process_file visible parts) files st) =
    fold_left (body visible)
      (if str_in node_modules (walk_root parts) then []
       else map (pair parts) files) st).
  { destruct (str_in node_modules (walk_root parts)); [reflexivity|].
    clear. revert st. induction files as [|e files IHf]; intros st;
      [reflexivity|]. cbn [map fold_left]. apply IHf. }
  rewrite Hfiles. clear Hfiles.
  generalize (fold_left (body visible)
      (if str_in node_modules (walk_root parts) then []
       else map (pair parts) files) st).
  generalize (str_in node_modules (walk_root parts)) as skip.
  intros skip. unfold descended.
  induction dirs as [|[n sub] dirs IHd]; intros s; [reflexivity|].
  inversion IH as [|? ? Hsub Hrest]; subst.
  cbn [filter fst].
  destruct (negb skip && str_eqb n node_modules)%bool; cbn [negb];
    [now apply IHd|].
  cbn [fold_left flat_map fst snd]. rewrite fold_left_app.
  cbn [snd] in Hsub. rewrite Hsub. now apply IHd.
Qed.

End WalkFacts.

(** ** One step of the loop *)

Lemma follow_app (a b : list event) :
  forall cur,
    follow cur (a ++ b) =
    match follow cur a with
    | Some cur' => follow cur' b
    | None => None
    end.
Proof.
  induction a as [|ev a IH]; intros cur; cbn [app follow]; [reflexivity|].
  destruct (follow_event cur ev); [apply IH | reflexivity].
Qed.

(** The four write calls of a block, made after its file was opened, are
    in place and end the block. *)
Lemma follow_block (parts : list str) (name c : str) (tr : list event) :
  follow (Some (parts, name), O)
         (map EvWrite (block_writes (mkBlock parts name c)) ++ tr)
  = follow idle tr.
Proof.
  unfold block_writes, block_header.
  cbn [map app follow follow_event b_parts b_name b_content].
  now rewrite !str_eqb_refl.
Qed.

(** [grows st st']: [st'] is [st] after some more of the run.  The trace
    is extended by a segment that reads well from between two blocks to
    between two blocks, and whose writes are exactly the blocks recorded
    meanwhile, the counter moving by their number. *)
Definition grows (st st' : state) : Prop :=
  exists seg bs,
    trace st' = trace st ++ seg /\
    emitted st' = emitted st ++ bs /\
    file_count st' = (file_count st + List.length bs)%nat /\
    written seg = flat_map block_writes bs /\
    follow idle seg = Some idle.

Lemma grows_refl (st : state) : grows st st.
Proof.
  exists [], []. rewrite !app_nil_r, Nat.add_0_r. repeat split; reflexivity.
Qed.

Lemma grows_trans (a b c : state) : grows a b -> grows b c -> grows a c.
Proof.
  intros (s1 & b1 & Ht1 & He1 & Hc1 & Hw1 & Hb1)
         (s2 & b2 & Ht2 & He2 & Hc2 & Hw2 & Hb2).
  exists (s1 ++ s2), (b1 ++ b2). repeat split.
  - now rewrite Ht2, Ht1, app_assoc.
  - now rewrite He2, He1, app_assoc.
  - rewrite Hc2, Hc1, length_app. lia.
  - now rewrite written_app, flat_map_app, Hw1, Hw2.
  - now rewrite follow_app, Hb1.
Qed.

Lemma grows_fold {A : Type} (f : state -> A -> state) (l : list A) :
  (forall st x, grows st (f st x)) ->
  forall st, grows st (fold_left f l st).
Proof.
  intros Hf. induction l as [|x l IH]; intros st; cbn [fold_left].
  - apply grows_refl.
  - eapply grows_trans; [apply Hf | apply IH].
Qed.

(** A step that prints a line. *)
Lemma grows_print (line : str) (st : state) : grows st (py_print line st).
Proof.
  exists [EvPrint line], []. cbn. rewrite app_nil_r, Nat.add_0_r.
  repeat split; reflexivity.
Qed.

(** A step that ends the run. *)
Lemma grows_raise (st : state) : grows st (raise_uncaught st).
Proof.
  exists [], []. cbn [raise_uncaught trace emitted file_count].
  rewrite !app_nil_r, Nat.add_0_r. repeat split; reflexivity.
Qed.

Lemma emit_emit (a b : list event) (st : state) :
  emit b (emit a st) = emit (a ++ b) st.
Proof.
  unfold emit. cbn [trace file_count emitted raised].
  now rewrite <- app_assoc.
Qed.

(** A step that opens files and prints a line. *)
Lemma grows_opens_print (opens : list event) (line : str) (st : state) :
  written opens = [] ->
  follow idle (opens ++ [EvPrint line]) = Some idle ->
  grows st (py_print line (emit opens st)).
Proof.
  intros Hw Hf. exists (opens ++ [EvPrint line]), [].
  cbn [py_print emit trace emitted file_count List.length flat_map].
  rewrite written_app, Hw, app_nil_r, Nat.add_0_r, <- app_assoc.
  repeat split; try reflexivity. exact Hf.
Qed.

(** A step that opens its file, writes its block and prints a line. *)
Lemma grows_opens_block (opens : list event) (parts : list str)
      (name c line : str) (st : state) :
  written opens = [] ->
  follow idle opens = Some (Some (parts, name), O) ->
  grows st (py_print line (write_block (mkBlock parts name c)
                             (emit opens st))).
Proof.
  intros Hw Hf.
  exists (opens ++ map EvWrite (block_writes (mkBlock parts name c))
          ++ [EvPrint line]), [mkBlock parts name c].
  cbn [py_print write_block emit trace emitted file_count List.length
       flat_map].
  rewrite !written_app, Hw, written_writes, <- !app_assoc, app_nil_r.
  repeat split; try reflexivity; try lia.
  now rewrite follow_app, Hf, follow_block.
Qed.

Section StepFacts.

Variable visible : list str -> bytes.

Lemma process_file_grows (parts : list str) (st : state)
      (entry : str * file) :
  grows st (process_file visible parts st entry).
Proof.
  destruct entry as [name f]. cbn [process_file].
  destruct (raised st); [apply grows_refl|].
  destruct (str_eqb name package_lock); [apply grows_refl|].
  destruct (stat_raises parts name f); [apply grows_raise|].
  destruct (negb (path_exists parts name f)); [apply grows_refl|].
  destruct (str_mem (suffix name) binary_suffixes).
  { apply grows_print. }
  destruct (open_read _ _ _ _ _ utf_8) as [data|msg].
  2:{ apply (grows_opens_print [EvOpen parts name utf_8]); reflexivity. }
  destruct (utf8_decode data) as [text|].
  { destruct (encodable _).
    - apply (grows_opens_block [EvOpen parts name utf_8]); reflexivity.
    - apply (grows_opens_print [EvOpen parts name utf_8]); reflexivity. }
  rewrite emit_emit.
  destruct (open_read _ _ _ _ _ latin_1) as [data'|msg];
    [destruct (encodable _)|].
  - apply (grows_opens_block
             [EvOpen parts name utf_8; EvOpen parts name latin_1]);
      reflexivity.
  - apply (grows_opens_print
             [EvOpen parts name utf_8; EvOpen parts name latin_1]);
      reflexivity.
  - apply (grows_opens_print
             [EvOpen parts name utf_8; EvOpen parts name latin_1]);
      reflexivity.
Qed.

Lemma walk_grows (parts : list str) (d : dir) (st : state) :
  grows st (walk visible parts d st).
Proof.
  rewrite walk_visited. apply grows_fold. intros s e.
  apply process_file_grows.
Qed.

(** What holds of every state the walk reaches from the initial one. *)
Lemma walk_init (d : dir) :
  let st := walk visible [] d init_state in
  written (trace st) = flat_map block_writes (emitted st) /\
  file_count st = List.length (emitted st) /\
  follow idle (trace st) = Some idle.
Proof.
  destruct (walk_grows [] d init_state)
    as (seg & bs & Ht & He & Hc & Hw & Hb).
  cbn [init_state trace emitted file_count app Nat.add] in *.
  cbn zeta. rewrite Ht, He, Hc. auto.
Qed.

End StepFacts.

(** ** Which entries the walk reaches *)

Lemma descended_In (skip : bool) (dirs : list (str * dir)) (e : str * dir) :
  In e (descended skip dirs) <->
  In e dirs /\ (skip = true \/ fst e <> node_modules).
Proof.
  unfold descended. rewrite filter_In.
  destruct skip; cbn [negb andb].
  - intuition.
  - rewrite negb_true_iff, str_eqb_neq. intuition discriminate.
Qed.

(** Below a root that is passed over nothing is processed. *)
Lemma visited_passed_over (d : dir) :
  forall parts,
    str_in node_modules (walk_root parts) = true -> visited parts d = [].
Proof.
  induction d as [files dirs IH] using dir_induction.
  intros parts Hskip. rewrite visited_unfold, Hskip. cbn [app].
  induction dirs as [|[n sub] dirs IHd]; [reflexivity|].
  inversion IH as [|? ? Hsub Hrest]; subst.
  unfold descended. cbn [filter fst negb andb flat_map snd].
  cbn [snd] in Hsub. rewrite Hsub.
  - cbn [app]. now apply IHd.
  - now apply (str_in_walk_root_below _ parts [n]).
Qed.

(** Every processed entry was listed in a directory whose root string
    does not mention node_modules. *)
Lemma visited_root (d : dir) :
  forall parts p e,
    In (p, e) (visited parts d) ->
    str_in node_modules (walk_root p) = false.
Proof.
  induction d as [files dirs IH] using dir_induction.
  intros parts p e. rewrite visited_unfold, in_app_iff, in_flat_map.
  intros [H|[[n sub] [Hd Hin]]].
  - destruct (str_in node_modules (walk_root parts)) eqn:Hs; [destruct H|].
    apply in_map_iff in H as [x [Hx _]]. now inversion Hx; subst.
  - apply descended_In in Hd as [Hd _].
    rewrite Forall_forall in IH. exact (IH _ Hd _ _ _ Hin).
Qed.

(** Every processed entry is an entry of the tree. *)
Lemma visited_file_at (d : dir) :
  forall parts p name f,
    In (p, (name, f)) (visited parts d) ->
    exists q, p = parts ++ q /\ file_at d q name f.
Proof.
  induction d as [files dirs IH] using dir_induction.
  intros parts p name f. rewrite visited_unfold, in_app_iff, in_flat_map.
  intros [H|[[n sub] [Hd Hin]]].
  - destruct (str_in node_modules (walk_root parts)); [destruct H|].
    apply in_map_iff in H as [x [Hx Hf]]. inversion Hx; subst.
    exists []. rewrite app_nil_r. split; [reflexivity|].
    now constructor.
  - apply descended_In in Hd as [Hd _].
    rewrite Forall_forall in IH.
    destruct (IH _ Hd _ _ _ _ Hin) as [q [-> Hq]]. cbn [fst snd] in *.
    exists (n :: q). rewrite <- app_assoc. split; [reflexivity|].
    econstructor; eassumption.
Qed.

(** Every entry of the tree below a root that does not mention
    node_modules is processed. *)
Lemma file_at_visited (d : dir) (q : list str) (name : str) (f : file) :
  file_at d q name f ->
  forall parts,
    str_in node_modules (walk_root (parts ++ q)) = false ->
    In (parts ++ q, (name, f)) (visited parts d).
Proof.
  induction 1 as [files dirs name f Hin | files dirs n sub q name f Hd Hq IH];
    intros parts Hs; rewrite visited_unfold, in_app_iff.
  - left. rewrite app_nil_r in *. rewrite Hs.
    apply in_map_iff. now exists (name, f).
  - right. apply in_flat_map. exists (n, sub). cbn [fst snd].
    assert (Hparts : str_in node_modules (walk_root parts) = false).
    { destruct (str_in node_modules (walk_root parts)) eqn:E; [|reflexivity].
      now rewrite (str_in_walk_root_below _ parts (n :: q) E) in Hs. }
    split.
    + apply descended_In. split; [assumption|]. right. cbn [fst].
      intros ->.
      rewrite (str_in_walk_root_part node_modules (parts ++ node_modules :: q))
        in Hs; [discriminate|].
      apply in_or_app. right. now left.
    + replace (parts ++ n :: q) with ((parts ++ [n]) ++ q)
        by now rewrite <- app_assoc.
      apply IH. now rewrite <- app_assoc.
Qed.

(** ** The loop body, case by case *)

Lemma eligible_split (parts : list str) (name : str) (f : file) :
  eligible parts name f = true <->
  str_eqb name package_lock = false /\
  path_exists parts name f = true /\
  binary_excluded name = false.
Proof.
  unfold eligible. rewrite !andb_true_iff, !negb_true_iff. tauto.
Qed.

(** The sink can encode the header of a block when it can encode the
    path. *)
Lemma encodable_header (parts : list str) (name c : str) :
  encodable (block_header (mkBlock parts name c)) =
  encodable (rel_path parts name).
Proof.
  unfold block_header, encodable. cbn [b_parts b_name].
  rewrite !forallb_app. cbn. now rewrite andb_true_r.
Qed.

Section BodyFacts.

Variable visible : list str -> bytes.

Lemma open_read_emit (evs : list event) (st : state) (parts : list str)
      (name : str) (f : file) (enc : encoding) :
  written evs = [] ->
  open_read visible (emit evs st) parts name f enc =
  open_read visible st parts name f enc.
Proof.
  intros H. unfold open_read, emit. cbn [trace].
  now rewrite written_app, H, app_nil_r.
Qed.

(** After an uncaught exception nothing runs. *)
Lemma process_file_raised (parts : list str) (st : state)
      (entry : str * file) :
  raised st = true -> process_file visible parts st entry = st.
Proof.
  intros H. destruct entry as [name f]. cbn [process_file]. now rewrite H.
Qed.

(** Line 24: package-lock.json leaves no mark. *)
Lemma process_file_lock (parts : list str) (st : state) (f : file) :
  process_file visible parts st (package_lock, f) = st.
Proof.
  unfold process_file. now destruct (raised st).
Qed.

(** Line 29, when [Path.exists()] raises: the run ends there. *)
Lemma process_file_stat (parts : list str) (st : state) (name : str)
      (f : file) :
  raised st = false ->
  str_eqb name package_lock = false ->
  stat_raises parts name f = true ->
  process_file visible parts st (name, f) = raise_uncaught st.
Proof.
  intros Hr Hl Hs. cbn [process_file]. now rewrite Hr, Hl, Hs.
Qed.

(** Line 30: an entry that is not there any more leaves no mark. *)
Lemma process_file_vanished (parts : list str) (st : state) (name : str)
      (f : file) :
  stat_raises parts name f = false ->
  path_exists parts name f = false ->
  process_file visible parts st (name, f) = st.
Proof.
  intros Hs H. cbn [process_file]. rewrite Hs, H. cbn [negb].
  now destruct (raised st), (str_eqb name package_lock).
Qed.

(** Lines 36-38. *)
Lemma process_file_binary (parts : list str) (st : state) (name : str)
      (f : file) :
  raised st = false ->
  stat_raises parts name f = false ->
  str_eqb name package_lock = false ->
  path_exists parts name f = true ->
  binary_excluded name = true ->
  process_file visible parts st (name, f) =
  py_print (lit "Skipping binary file: " ++ rel_path parts name) st.
Proof.
  intros Hr Hs Hl He Hb. cbn [process_file]. rewrite Hr, Hs, Hl, He.
  cbn [negb]. unfold binary_excluded in Hb. now rewrite Hb.
Qed.

(** Lines 69-70, after a failed [open] or [read]. *)
Lemma process_file_error (parts : list str) (st : state) (name : str)
      (f : file) (msg : str) :
  raised st = false ->
  stat_raises parts name f = false ->
  eligible parts name f = true ->
  open_read visible st parts name f utf_8 = ReadError msg ->
  process_file visible parts st (name, f) =
  py_print (lit "Error reading " ++ rel_path parts name ++ lit ": " ++ msg)
    (emit [EvOpen parts name utf_8] st).
Proof.
  intros Hr Hs He Ho. apply eligible_split in He as (Hl & Hx & Hb).
  cbn [process_file]. rewrite Hr, Hs, Hl, Hx. cbn [negb].
  unfold binary_excluded in Hb. rewrite Hb.
  now rewrite open_read_emit, Ho.
Qed.

(** Lines 42-52. *)
Lemma process_file_utf8 (parts : list str) (st : state) (name : str)
      (f : file) (data : bytes) (text : str) :
  raised st = false ->
  stat_raises parts name f = false ->
  eligible parts name f = true ->
  open_read visible st parts name f utf_8 = ReadOk data ->
  utf8_decode data = Some text ->
  encodable (rel_path parts name) = true ->
  process_file visible parts st (name, f) =
  py_print (check_mark :: lit " Added: " ++ rel_path parts name)
    (write_block (mkBlock parts name (universal_newlines text))
       (emit [EvOpen parts name utf_8] st)).
Proof.
  intros Hr Hs He Ho Hd Hc. apply eligible_split in He as (Hl & Hx & Hb).
  cbn [process_file]. rewrite Hr, Hs, Hl, Hx. cbn [negb].
  unfold binary_excluded in Hb. rewrite Hb.
  rewrite open_read_emit, Ho, Hd by reflexivity.
  rewrite <- (encodable_header parts name []) in Hc.
  unfold block_header in Hc. cbn [b_parts b_name] in Hc. now rewrite Hc.
Qed.

(** Lines 42-46 and 69-70: the sink refuses the header. *)
Lemma process_file_refused (parts : list str) (st : state) (name : str)
      (f : file) (data : bytes) (text : str) :
  raised st = false ->
  stat_raises parts name f = false ->
  eligible parts name f = true ->
  open_read visible st parts name f utf_8 = ReadOk data ->
  utf8_decode data = Some text ->
  encodable (rel_path parts name) = false ->
  process_file visible parts st (name, f) =
  py_print (lit "Error reading " ++ rel_path parts name ++ lit ": "
            ++ encode_error (block_header (mkBlock parts name [])))
    (emit [EvOpen parts name utf_8] st).
Proof.
  intros Hr Hs He Ho Hd Hc. apply eligible_split in He as (Hl & Hx & Hb).
  cbn [process_file]. rewrite Hr, Hs, Hl, Hx. cbn [negb].
  unfold binary_excluded in Hb. rewrite Hb.
  rewrite open_read_emit, Ho, Hd by reflexivity.
  rewrite <- (encodable_header parts name []) in Hc.
  unfold block_header in *. cbn [b_parts b_name] in *. now rewrite Hc.
Qed.

(** Lines 54-65. *)
Lemma process_file_latin1 (parts : list str) (st : state) (name : str)
      (f : file) (data data' : bytes) :
  raised st = false ->
  stat_raises parts name f = false ->
  eligible parts name f = true ->
  open_read visible st parts name f utf_8 = ReadOk data ->
  utf8_decode data = None ->
  open_read visible st parts name f latin_1 = ReadOk data' ->
  encodable (rel_path parts name) = true ->
  process_file visible parts st (name, f) =
  py_print (check_mark :: lit " Added (latin-1): " ++ rel_path parts name)
    (write_block
       (mkBlock parts name (universal_newlines (latin1_decode data')))
       (emit [EvOpen parts name utf_8; EvOpen parts name latin_1] st)).
Proof.
  intros Hr Hs He Ho Hd Ho' Hc. apply eligible_split in He as (Hl & Hx & Hb).
  cbn [process_file]. rewrite Hr, Hs, Hl, Hx. cbn [negb].
  unfold binary_excluded in Hb. rewrite Hb.
  rewrite open_read_emit, Ho, Hd by reflexivity.
  rewrite !open_read_emit, Ho' by reflexivity.
  rewrite <- (encodable_header parts name []) in Hc.
  unfold block_header in Hc. cbn [b_parts b_name] in Hc. rewrite Hc.
  now rewrite emit_emit.
Qed.

(** Lines 66-68: the retry cannot read the file, or the sink refuses the
    header. *)
Lemma process_file_unreadable (parts : list str) (st : state) (name : str)
      (f : file) (data : bytes) :
  raised st = false ->
  stat_raises parts name f = false ->
  eligible parts name f = true ->
  open_read visible st parts name f utf_8 = ReadOk data ->
  utf8_decode data = None ->
  (encodable (rel_path parts name) = false \/
   exists msg, open_read visible st parts name f latin_1 = ReadError msg) ->
  process_file visible parts st (name, f) =
  py_print (lit "Skipping unreadable file: " ++ rel_path parts name)
    (emit [EvOpen parts name utf_8; EvOpen parts name latin_1] st).
Proof.
  intros Hr Hs He Ho Hd Hc. apply eligible_split in He as (Hl & Hx & Hb).
  cbn [process_file]. rewrite Hr, Hs, Hl, Hx. cbn [negb].
  unfold binary_excluded in Hb. rewrite Hb.
  rewrite open_read_emit, Ho, Hd by reflexivity.
  rewrite !open_read_emit by reflexivity. rewrite emit_emit.
  destruct Hc as [Hc|[msg Ho']].
  - rewrite <- (encodable_header parts name []) in Hc.
    unfold block_header in Hc. cbn [b_parts b_name] in Hc. rewrite Hc.
    now destruct (open_read visible st parts name f latin_1).
  - now rewrite Ho'.
Qed.

(** A step raises when the run has, or when [Path.exists()] does. *)
Lemma process_file_raises (parts : list str) (st : state) (name : str)
      (f : file) :
  raised (process_file visible parts st (name, f)) =
  (raised st
   || negb (str_eqb name package_lock) && stat_raises parts name f)%bool.
Proof.
  cbn [process_file]. destruct (raised st) eqn:Hr; [exact Hr|].
  cbn [orb]. destruct (str_eqb name package_lock); [exact Hr|].
  cbn [negb andb]. destruct (stat_raises parts name f); [reflexivity|].
  destruct (negb (path_exists parts name f)); [exact Hr|].
  destruct (str_mem (suffix name) binary_suffixes); [exact Hr|].
  destruct (open_read _ _ _ _ _ utf_8) as [data|msg]; [|exact Hr].
  destruct (utf8_decode data) as [text|].
  { now destruct (encodable _). }
  destruct (open_read _ _ _ _ _ latin_1) as [data'|msg]; [|exact Hr].
  now destruct (encodable _).
Qed.

(** A step that has not raised started from a run that had not, on an
    entry for which [Path.exists()] answers. *)
Lemma step_clean (parts : list str) (st : state) (name : str) (f : file) :
  raised (process_file visible parts st (name, f)) = false ->
  raised st = false /\
  (str_eqb name package_lock = false -> stat_raises parts name f = false).
Proof.
  rewrite process_file_raises. intros H.
  apply orb_false_iff in H as [Hr Hs]. split; [exact Hr|].
  intros Hl. now rewrite Hl in Hs.
Qed.

(** The blocks one step adds. *)
Lemma process_file_emitted (parts : list str) (st : state) (name : str)
      (f : file) :
  emitted (process_file visible parts st (name, f)) =
  emitted st ++
  (if (negb (raised (process_file visible parts st (name, f)))
       && eligible parts name f
       && encodable (rel_path parts name))%bool
   then match decoded visible st parts name f with
        | Some c => [mkBlock parts name c]
        | None => []
        end
   else []).
Proof.
  destruct (raised (process_file visible parts st (name, f))) eqn:Hp.
  { cbn [negb andb]. rewrite app_nil_r.
    rewrite process_file_raises in Hp. destruct (raised st) eqn:Hr.
    - now rewrite process_file_raised.
    - cbn [orb] in Hp. apply andb_true_iff in Hp as [Hl Hs].
      apply negb_true_iff in Hl.
      now rewrite (process_file_stat _ _ _ _ Hr Hl Hs). }
  cbn [negb andb]. destruct (step_clean _ _ _ _ Hp) as [Hr Hs].
  destruct (eligible parts name f) eqn:He; cbn [andb].
  - assert (Hl : str_eqb name package_lock = false)
      by now apply eligible_split in He.
    specialize (Hs Hl). unfold decoded.
    destruct (encodable (rel_path parts name)) eqn:Hc;
      destruct (open_read visible st parts name f utf_8) as [data|msg] eqn:Ho.
    + destruct (utf8_decode data) as [text|] eqn:Hd.
      * now rewrite (process_file_utf8 _ _ _ _ _ _ Hr Hs He Ho Hd Hc).
      * destruct (open_read visible st parts name f latin_1)
          as [data'|msg] eqn:Ho'.
        -- now rewrite (process_file_latin1 _ _ _ _ _ _ Hr Hs He Ho Hd Ho' Hc).
        -- rewrite (process_file_unreadable _ _ _ _ _ Hr Hs He Ho Hd).
           ++ cbn. now rewrite app_nil_r.
           ++ right. now exists msg.
    + rewrite (process_file_error _ _ _ _ _ Hr Hs He Ho). cbn.
      now rewrite app_nil_r.
    + destruct (utf8_decode data) as [text|] eqn:Hd.
      * rewrite (process_file_refused _ _ _ _ _ _ Hr Hs He Ho Hd Hc). cbn.
        now rewrite app_nil_r.
      * rewrite (process_file_unreadable _ _ _ _ _ Hr Hs He Ho Hd).
        -- cbn. now rewrite app_nil_r.
        -- now left.
    + rewrite (process_file_error _ _ _ _ _ Hr Hs He Ho). cbn.
      now rewrite app_nil_r.
  - rewrite app_nil_r. unfold eligible in He.
    destruct (str_eqb name package_lock) eqn:Hl.
    + apply str_eqb_eq in Hl. subst name. now rewrite process_file_lock.
    + specialize (Hs eq_refl).
      destruct (path_exists parts name f) eqn:Hx.
      * cbn [negb andb] in He. apply negb_false_iff in He.
        now rewrite (process_file_binary _ _ _ _ Hr Hs Hl Hx He).
      * now rewrite (process_file_vanished _ _ _ _ Hs Hx).
Qed.

(** Once an exception is out, the loop leaves the state as it is. *)
Lemma loop_raised (l : list (list str * (str * file))) (st : state) :
  raised st = true -> fold_left (body visible) l st = st.
Proof.
  intros H. induction l as [|e l IH]; [reflexivity|].
  cbn [fold_left]. unfold body at 2. now rewrite process_file_raised.
Qed.

(** A loop that has not raised had not raised at any of its steps. *)
Lemma loop_clean (l1 l2 : list (list str * (str * file)))
      (e : list str * (str * file)) (st : state) :
  raised (fold_left (body visible) (l1 ++ e :: l2) st) = false ->
  raised (body visible (fold_left (body visible) l1 st) e) = false.
Proof.
  rewrite fold_left_app. cbn [fold_left]. intros H.
  destruct (raised (body visible (fold_left (body visible) l1 st) e))
    eqn:E; [|reflexivity].
  now rewrite (loop_raised l2 _ E), E in H.
Qed.

End BodyFacts.

(** ** Listings *)

Lemma has_name_In {A : Type} (n : str) (l : list (str * A)) :
  has_name n l = true <-> In n (map fst l).
Proof.
  unfold has_name. rewrite existsb_exists, in_map_iff. split.
  - intros [e [He Hn]]. apply str_eqb_eq in Hn. now exists e.
  - intros [e [Hn He]]. exists e. split; [assumption|].
    now apply str_eqb_eq.
Qed.

Lemma has_name_not_In {A : Type} (n : str) (l : list (str * A)) :
  has_name n l = false <-> ~ In n (map fst l).
Proof.
  rewrite <- has_name_In. destruct (has_name n l); split; congruence.
Qed.

Lemma set_entry_names {A : Type} (n : str) (v : A) (l : list (str * A)) :
  map fst (set_entry n v l) = map fst l.
Proof.
  induction l as [|[m w] l IH]; [reflexivity|]. cbn [set_entry].
  destruct (str_eqb m n); cbn [map fst]; [reflexivity | now f_equal].
Qed.

Lemma set_entry_twice {A : Type} (n : str) (v w : A) (l : list (str * A)) :
  set_entry n v (set_entry n w l) = set_entry n v l.
Proof.
  induction l as [|[m u] l IH]; [reflexivity|]. cbn [set_entry].
  destruct (str_eqb m n) eqn:E; cbn [set_entry]; rewrite E;
    [reflexivity | now f_equal].
Qed.

Lemma set_entry_other {A : Type} (n : str) (v : A) (l : list (str * A))
      (m : str) (w : A) :
  m <> n -> In (m, w) l -> In (m, w) (set_entry n v l).
Proof.
  intros Hm. induction l as [|[k u] l IH]; [intros []|].
  cbn [set_entry]. intros [H|H].
  - inversion H; subst. apply str_eqb_neq in Hm. rewrite Hm. now left.
  - destruct (str_eqb k n); right; auto.
Qed.

Lemma set_entry_fresh {A : Type} (n : str) (v w : A)
      (a b : list (str * A)) :
  has_name n a = false ->
  set_entry n v (a ++ (n, w) :: b) = a ++ (n, v) :: b.
Proof.
  induction a as [|[m u] a IH]; cbn [app set_entry has_name existsb fst].
  - intros _. now rewrite str_eqb_refl.
  - intros H. apply orb_false_iff in H as [Hm Ha]. rewrite Hm.
    f_equal. now apply IH.
Qed.

Lemma has_name_firstn {A : Type} (n : str) (i : nat) (l : list (str * A)) :
  has_name n l = false -> has_name n (firstn i l) = false.
Proof.
  rewrite !has_name_not_In. intros H Hin. apply H.
  rewrite <- (firstn_skipn i l), map_app. apply in_or_app. now left.
Qed.

Lemma insert_at_In {A : Type} (i : nat) (x y : A) (l : list A) :
  In y (insert_at i x l) <-> y = x \/ In y l.
Proof.
  unfold insert_at. rewrite <- (firstn_skipn i l) at 3.
  rewrite !in_app_iff. cbn [In]. intuition congruence.
Qed.

Lemma insert_at_NoDup {A : Type} (i : nat) (x : A) (l : list A) :
  NoDup l -> ~ In x l -> NoDup (insert_at i x l).
Proof.
  intros Hl Hx. unfold insert_at.
  apply (NoDup_Add (Add_app x (firstn i l) (skipn i l))).
  now rewrite firstn_skipn.
Qed.

Lemma insert_at_map {A B : Type} (g : A -> B) (i : nat) (x : A)
      (l : list A) :
  map g (insert_at i x l) = insert_at i (g x) (map g l).
Proof.
  unfold insert_at. now rewrite map_app, firstn_map, skipn_map.
Qed.

Lemma unique_names_unfold (files : list (str * file))
      (dirs : list (str * dir)) :
  unique_names (Dir files dirs) <->
  NoDup (map fst files) /\ NoDup (map fst dirs) /\
  Forall (fun e => unique_names (snd e)) dirs.
Proof.
  cbn [unique_names].
  assert (H : (fix all (l : list (str * dir)) : Prop :=
                 match l with
                 | [] => True
                 | (_, sub) :: l' => unique_names sub /\ all l'
                 end) dirs <-> Forall (fun e => unique_names (snd e)) dirs).
  { induction dirs as [|[n sub] dirs IH].
    - split; [constructor | trivial].
    - rewrite Forall_cons_iff, IH. reflexivity. }
  rewrite H. reflexivity.
Qed.

(** ** No entry is processed twice *)

Lemma app_eq_self_nil {A : Type} (p q : list A) : p = p ++ q -> q = [].
Proof.
  intros H. rewrite <- (app_nil_r p) in H at 1.
  now apply app_inv_head in H.
Qed.

Lemma NoDup_map_filter {A B : Type} (g : A -> B) (keep : A -> bool)
      (l : list A) :
  NoDup (map g l) -> NoDup (map g (filter keep l)).
Proof.
  induction l as [|x l IH]; [constructor|]. cbn [map filter].
  intros H. inversion H as [|? ? Hn Hr]; subst.
  destruct (keep x); [|now apply IH].
  cbn [map]. constructor; [|now apply IH].
  intros Hin. apply Hn. apply in_map_iff in Hin as [y [Hy Hin]].
  apply filter_In in Hin as [Hin _]. apply in_map_iff. now exists y.
Qed.

Lemma visited_NoDup (d : dir) :
  forall parts, unique_names d -> NoDup (map entry_path (visited parts d)).
Proof.
  induction d as [files dirs IH] using dir_induction.
  intros parts Hu. apply unique_names_unfold in Hu as (Hf & Hd & Hs).
  rewrite visited_unfold, map_app. apply NoDup_app.
  - destruct (str_in node_modules (walk_root parts)); [constructor|].
    rewrite map_map. cbn [entry_path fst snd].
    clear - Hf. induction files as [|[n f] files IHf]; [constructor|].
    cbn [map fst] in *. inversion Hf as [|? ? Hn Hr]; subst.
    constructor; [|now apply IHf].
    rewrite in_map_iff. intros [[m g] [Heq Hin]]. cbn [fst] in Heq.
    inversion Heq; subst. apply Hn. apply in_map_iff.
    now exists (n, g).
  - assert (Hd' : NoDup (map fst
       (descended (str_in node_modules (walk_root parts)) dirs))).
    { unfold descended. now apply NoDup_map_filter. }
    assert (Hall : Forall (fun e => forall parts,
                       NoDup (map entry_path (visited parts (snd e))))
       (descended (str_in node_modules (walk_root parts)) dirs)).
    { rewrite Forall_forall in *. intros e He.
      apply descended_In in He as [He _]. intros q. apply IH; auto. }
    revert Hd' Hall.
    generalize (descended (str_in node_modules (walk_root parts)) dirs).
    clear. intros l Hn Hall.
    induction l as [|[n sub] l IHl]; [constructor|].
    cbn [flat_map fst snd]. rewrite map_app.
    cbn [map fst] in Hn. inversion Hn as [|? ? Hnot Hrest]; subst.
    inversion Hall as [|? ? Hsub Hother]; subst.
    apply NoDup_app; [apply Hsub | now apply IHl |].
    intros [p name] H1 H2.
    apply in_map_iff in H1 as [[p1 [n1 f1]] [E1 H1]].
    apply in_map_iff in H2 as [[p2 [n2 f2]] [E2 H2]].
    cbn in E1, E2. inversion E1; inversion E2; subst. clear E1 E2.
    apply in_flat_map in H2 as [[m sub'] [Hm H2]]. cbn [fst snd] in *.
    apply visited_file_at in H1 as [q1 [E1 _]].
    apply visited_file_at in H2 as [q2 [E2 _]].
    rewrite E1, <- !app_assoc in E2. apply app_inv_head in E2.
    inversion E2; subst. apply Hnot. apply in_map_iff. now exists (m, sub').
  - intros [p name] H1 H2.
    destruct (str_in node_modules (walk_root parts)); [destruct H1|].
    apply in_map_iff in H1 as [[p1 [n1 f1]] [E1 H1]].
    apply in_map_iff in H1 as [x [Ex _]]. inversion Ex; subst.
    cbn in E1. inversion E1; subst. clear E1 Ex.
    apply in_map_iff in H2 as [[p2 [n2 f2]] [E2 H2]].
    cbn in E2. inversion E2; subst. clear E2.
    apply in_flat_map in H2 as [[m sub'] [_ H2]]. cbn [fst snd] in *.
    apply visited_file_at in H2 as [q [E _]].
    rewrite <- app_assoc in E. apply app_eq_self_nil in E. discriminate.
Qed.

(** ** The loop over the visited entries *)

Section LoopFacts.

Variable visible : list str -> bytes.

Lemma block_for_same (parts : list str) (name c : str) :
  block_for parts name (mkBlock parts name c) = true.
Proof.
  unfold block_for. cbn [b_parts b_name].
  rewrite str_eqb_refl, andb_true_r. now apply parts_eqb_eq.
Qed.

Lemma block_for_other (parts q : list str) (name m c : str) :
  (q, m) <> (parts, name) ->
  block_for parts name (mkBlock q m c) = false.
Proof.
  intros H. unfold block_for. cbn [b_parts b_name].
  destruct (parts_eqb q parts) eqn:Ep; [|reflexivity].
  destruct (str_eqb m name) eqn:En; [|reflexivity].
  apply parts_eqb_eq in Ep. apply str_eqb_eq in En. now subst.
Qed.

(** Entries elsewhere in the tree add no block for the file
    [parts]/[name]. *)
Lemma loop_emitted_other (parts : list str) (name : str)
      (l : list (list str * (str * file))) :
  ~ In (parts, name) (map entry_path l) ->
  forall st,
    filter (block_for parts name) (emitted (fold_left (body visible) l st))
    = filter (block_for parts name) (emitted st).
Proof.
  induction l as [|[q [m g]] l IH]; intros Hnot st; [reflexivity|].
  cbn [fold_left]. rewrite IH.
  - unfold body. cbn [fst snd].
    rewrite process_file_emitted, filter_app.
    assert (Hq : (q, m) <> (parts, name)).
    { intros E. apply Hnot. left. exact E. }
    destruct (_ && _ && _)%bool; [|now rewrite app_nil_r].
    destruct (decoded visible st q m g); [|now rewrite app_nil_r].
    cbn [filter]. rewrite (block_for_other _ _ _ _ _ Hq).
    now rewrite app_nil_r.
  - intros H. apply Hnot. now right.
Qed.

(** An entry that is processed once, in a loop that does not raise, adds
    to the blocks for its path what its own step adds. *)
Lemma loop_emitted_one (parts : list str) (name : str) (f : file)
      (l : list (list str * (str * file))) (st : state) :
  NoDup (map entry_path l) ->
  In (parts, (name, f)) l ->
  raised (fold_left (body visible) l st) = false ->
  exists st',
    grows st st' /\
    filter (block_for parts name) (emitted (fold_left (body visible) l st))
    = filter (block_for parts name) (emitted st) ++
      (if (eligible parts name f && encodable (rel_path parts name))%bool
       then match decoded visible st' parts name f with
            | Some c => [mkBlock parts name c]
            | None => []
            end
       else []).
Proof.
  intros Hnd Hin Hr. apply in_split in Hin as (l1 & l2 & ->).
  rewrite map_app in Hnd. cbn [map] in Hnd.
  apply NoDup_remove_2 in Hnd. cbn [entry_path fst snd] in Hnd.
  exists (fold_left (body visible) l1 st). split.
  { apply grows_fold. intros s e. apply process_file_grows. }
  apply loop_clean in Hr. unfold body at 1 in Hr. cbn [fst snd] in Hr.
  rewrite fold_left_app. cbn [fold_left].
  rewrite loop_emitted_other
    by (intros H; apply Hnd; apply in_or_app; now right).
  unfold body at 1. cbn [fst snd].
  rewrite process_file_emitted, filter_app, Hr. cbn [negb andb].
  rewrite loop_emitted_other
    by (intros H; apply Hnd; apply in_or_app; now left).
  f_equal.
  destruct (_ && _)%bool; [|reflexivity].
  destruct (decoded visible _ parts name f); [|reflexivity].
  cbn [filter]. now rewrite block_for_same.
Qed.

(** What a step appends to the trace stays in the trace. *)
Lemma loop_trace_In (e : list str * (str * file)) (ev : event)
      (l : list (list str * (str * file))) (st : state) :
  In e l ->
  raised (fold_left (body visible) l st) = false ->
  (forall s, raised (body visible s e) = false ->
             In ev (trace (body visible s e))) ->
  In ev (trace (fold_left (body visible) l st)).
Proof.
  intros Hin Hr Hev. apply in_split in Hin as (l1 & l2 & ->).
  apply loop_clean in Hr.
  rewrite fold_left_app. cbn [fold_left].
  destruct (grows_fold (body visible) l2
              (fun s x => process_file_grows visible (fst x) s (snd x))
              (body visible (fold_left (body visible) l1 st) e))
    as (seg & _ & Ht & _).
  rewrite Ht. apply in_or_app. left. now apply Hev.
Qed.

(** Outside the sink, what is read does not depend on the state. *)
Lemma decoded_not_sink (st st' : state) (parts : list str) (name : str)
      (f : file) :
  is_sink parts name = false ->
  decoded visible st parts name f = decoded visible st' parts name f.
Proof. intros H. unfold decoded, open_read. now rewrite H. Qed.

End LoopFacts.

(** ** Opening and closing the sink *)

Section SinkFacts.

Variable slot : list str -> nat.

Lemma open_sink_has_file (cwd d : dir) :
  open_sink slot cwd = Some d ->
  has_name output_file (dir_files d) = true /\
  has_name output_file (dir_dirs d) = false.
Proof.
  destruct cwd as [files dirs]. cbn [open_sink].
  destruct (has_name output_file dirs) eqn:Hd; [discriminate|].
  destruct (has_name output_file files) eqn:Hf; intros H;
    inversion H; subst; cbn [dir_files dir_dirs]; split; try assumption;
    apply has_name_In.
  - rewrite set_entry_names. now apply has_name_In.
  - rewrite insert_at_map. apply insert_at_In. now left.
Qed.

(** Opening the sink again after the run finds the tree of the first
    opening. *)
Lemma open_sink_again (cwd d : dir) (data : bytes) :
  open_sink slot cwd = Some d ->
  open_sink slot (close_sink d data) = Some d.
Proof.
  intros H. destruct (open_sink_has_file _ _ H) as [Hf Hd].
  destruct cwd as [files dirs]. cbn [open_sink] in H.
  destruct (has_name output_file dirs) eqn:Hdirs; [discriminate|].
  destruct (has_name output_file files) eqn:Hfiles;
    inversion H; subst; clear H; cbn [close_sink open_sink dir_files] in *;
    rewrite Hdirs.
  - rewrite !set_entry_twice.
    assert (Hn : has_name output_file
                   (set_entry output_file (regular data) files) = true).
    { apply has_name_In. rewrite set_entry_names. now apply has_name_In. }
    now rewrite Hn.
  - unfold insert_at in *.
    rewrite set_entry_fresh by now apply has_name_firstn.
    assert (Hn : has_name output_file
              (firstn (slot (map fst files)) files
               ++ (output_file, regular data)
                  :: skipn (slot (map fst files)) files) = true).
    { apply has_name_In. rewrite map_app. apply in_or_app. right.
      now left. }
    rewrite Hn. now rewrite set_entry_fresh by now apply has_name_firstn.
Qed.

Lemma close_sink_output (d : dir) (data : bytes) :
  has_name output_file (dir_files d) = true ->
  output_of (close_sink d data) = Some (regular data).
Proof.
  destruct d as [files dirs]. cbn [dir_files close_sink]. unfold output_of.
  cbn [dir_files]. induction files as [|[m w] files IH]; [discriminate|].
  cbn [has_name existsb fst set_entry].
  destruct (str_eqb m output_file) eqn:E; cbn [find fst]; rewrite E.
  - reflexivity.
  - cbn [orb]. exact IH.
Qed.

Lemma open_sink_unique (cwd d : dir) :
  open_sink slot cwd = Some d -> unique_names cwd -> unique_names d.
Proof.
  destruct cwd as [files dirs]. cbn [open_sink].
  destruct (has_name output_file dirs); [discriminate|].
  destruct (has_name output_file files) eqn:Hf; intros H Hu;
    inversion H; subst; clear H;
    apply unique_names_unfold in Hu as (Hfiles & Hdirs & Hsub);
    apply unique_names_unfold; repeat split; try assumption.
  - now rewrite set_entry_names.
  - rewrite insert_at_map. apply insert_at_NoDup; [assumption|].
    now apply has_name_not_In.
Qed.

Lemma open_sink_file_at (cwd d : dir) (parts : list str) (name : str)
      (f : file) :
  open_sink slot cwd = Some d ->
  file_at cwd parts name f -> is_sink parts name = false ->
  file_at d parts name f.
Proof.
  destruct cwd as [files dirs]. cbn [open_sink].
  destruct (has_name output_file dirs); [discriminate|].
  intros H Hat Hs.
  inversion Hat as [? ? ? ? Hin | ? ? n sub q ? ? Hd Hq]; subst.
  - cbn [is_sink] in Hs. apply str_eqb_neq in Hs.
    destruct (has_name output_file files); inversion H; subst;
      constructor.
    + now apply set_entry_other.
    + apply insert_at_In. now right.
  - destruct (has_name output_file files); inversion H; subst;
      econstructor; eassumption.
Qed.

End SinkFacts.

(** ** The whole run *)

Section RunFacts.

Variable visible : list str -> bytes.
Variable slot : list str -> nat.

(** A run that returns opened the sink, walked the tree without an
    uncaught exception and printed the summary. *)
Lemma run_returns (cwd cwd1 : dir) (st : state) :
  generate_arcade_project_files visible slot cwd = Some (cwd1, st) ->
  exists d,
    open_sink slot cwd = Some d /\
    raised (walk visible [] d init_state) = false /\
    cwd1 = close_sink d (output_bytes (walk visible [] d init_state)) /\
    st = emit (map EvPrint (summary
                 (file_count (walk visible [] d init_state))))
           (walk visible [] d init_state).
Proof.
  unfold generate_arcade_project_files.
  destruct (open_sink slot cwd) as [d|]; [|discriminate].
  cbn zeta. destruct (raised (walk visible [] d init_state)) eqn:Hr;
    [discriminate|].
  intros H. inversion H; subst. now exists d.
Qed.

Lemma run_reached (cwd d : dir) (parts : list str) (name : str)
      (f : file) :
  open_sink slot cwd = Some d ->
  reached cwd parts name f ->
  In (parts, (name, f)) (visited [] d).
Proof.
  intros Ho (Hat & Hs & Hroot).
  apply (file_at_visited d parts name f
           (open_sink_file_at slot _ _ _ _ _ Ho Hat Hs) []).
  exact Hroot.
Qed.

(** The blocks of a run that come from a reached entry are the ones its
    own step adds. *)
Lemma run_blocks_for (cwd cwd1 : dir) (st : state) (parts : list str)
      (name : str) (f : file) :
  unique_names cwd ->
  generate_arcade_project_files visible slot cwd = Some (cwd1, st) ->
  reached cwd parts name f ->
  filter (block_for parts name) (emitted st) =
  if (eligible parts name f && encodable (rel_path parts name))%bool
  then match decoded visible init_state parts name f with
       | Some c => [mkBlock parts name c]
       | None => []
       end
  else [].
Proof.
  intros Hu Hrun Hre.
  destruct (run_returns _ _ _ Hrun) as (d & Ho & Hr & _ & ->).
  cbn [emit emitted]. rewrite walk_visited in *.
  destruct (loop_emitted_one visible parts name f (visited [] d) init_state)
    as (st' & _ & ->).
  - apply visited_NoDup. now apply (open_sink_unique slot cwd).
  - now apply (run_reached cwd).
  - exact Hr.
  - cbn [init_state emitted filter app].
    destruct Hre as (_ & Hs & _).
    now rewrite (decoded_not_sink visible st' init_state _ _ _ Hs).
Qed.

(** What the step of a reached entry appends to the trace whenever it
    runs is in the trace of the run. *)
Lemma run_trace_In (cwd cwd1 : dir) (st : state) (parts : list str)
      (name : str) (f : file) (ev : event) :
  generate_arcade_project_files visible slot cwd = Some (cwd1, st) ->
  reached cwd parts name f ->
  str_eqb name package_lock = false ->
  (forall s, raised s = false -> stat_raises parts name f = false ->
             In ev (trace (process_file visible parts s (name, f)))) ->
  In ev (trace st).
Proof.
  intros Hrun Hre Hl Hev.
  destruct (run_returns _ _ _ Hrun) as (d & Ho & Hr & _ & ->).
  cbn [emit trace]. apply in_or_app. left. rewrite walk_visited in *.
  apply (loop_trace_In visible (parts, (name, f))).
  - now apply (run_reached cwd).
  - exact Hr.
  - intros s Hs. unfold body in *. cbn [fst snd] in *.
    destruct (step_clean visible _ _ _ _ Hs) as [H1 H2]. now apply Hev; auto.
Qed.

Lemma run_state (cwd cwd1 : dir) (st : state) :
  generate_arcade_project_files visible slot cwd = Some (cwd1, st) ->
  written (trace st) = flat_map block_writes (emitted st) /\
  file_count st = List.length (emitted st) /\
  follow idle (trace st) = Some idle /\
  output_of cwd1 = Some (regular (utf8_encode
                                    (List.concat (written (trace st))))) /\
  exists tr, trace st = tr ++ map EvPrint (summary (file_count st)).
Proof.
  intros Hrun. destruct (run_returns _ _ _ Hrun) as (d & Ho & _ & -> & ->).
  destruct (walk_init visible d) as (Hw & Hc & Hb).
  cbn zeta in *. cbn [emit trace emitted file_count].
  rewrite written_app, written_prints, app_nil_r.
  repeat split; try assumption.
  - rewrite follow_app, Hb. reflexivity.
  - apply close_sink_output. now apply (open_sink_has_file slot cwd).
  - now exists (trace (walk visible [] d init_state)).
Qed.

End RunFacts.

(** ** Blocks and the tests that let them through *)

Section EmittedFacts.

Variable visible : list str -> bytes.

Lemma loop_emitted_Forall (Q : block -> Prop)
      (l : list (list str * (str * file))) :
  (forall p n f c, In (p, (n, f)) l -> eligible p n f = true ->
                   Q (mkBlock p n c)) ->
  forall st, Forall Q (emitted st) ->
             Forall Q (emitted (fold_left (body visible) l st)).
Proof.
  induction l as [|[p [n f]] l IH]; intros HQ st Hst; [assumption|].
  cbn [fold_left]. apply IH.
  - intros q m g c Hin. apply (HQ q m g). now right.
  - unfold body. cbn [fst snd]. rewrite process_file_emitted.
    apply Forall_app. split; [assumption|].
    destruct (eligible p n f) eqn:He;
      [|rewrite andb_false_r; constructor].
    destruct (_ && _ && _)%bool; [|constructor].
    destruct (decoded visible st p n f); [|constructor].
    constructor; [|constructor]. apply (HQ p n f); [now left | assumption].
Qed.

Lemma parse_blocks_emitted (bs : list block) :
  parse_blocks (flat_map block_writes bs) =
  Some (map (fun b => (block_header b, b_content b)) bs).
Proof.
  induction bs as [|b bs IH]; [reflexivity|].
  cbn [flat_map block_writes app parse_blocks].
  rewrite starts_with_app, IH. reflexivity.
Qed.

Lemma concat_block_writes (bs : list block) :
  List.concat (flat_map block_writes bs) = flat_map block_text bs.
Proof.
  induction bs as [|b bs IH]; [reflexivity|].
  cbn [flat_map]. now rewrite concat_app, IH.
Qed.

End EmittedFacts.

(** ** Decoding and encoding *)

Lemma byte_of_to_N (b : byte) : byte_of (Byte.to_N b) = b.
Proof. unfold byte_of. now rewrite Byte.of_to_N. Qed.

Lemma in_range_spec (lo hi n : N) :
  in_range lo hi n = true <-> lo <= n /\ n <= hi.
Proof. unfold in_range. rewrite andb_true_iff, !N.leb_le. reflexivity. Qed.

Lemma div_pack (a r k : N) : r < k -> (a * k + r) / k = a.
Proof.
  intros H. symmetry. apply (N.div_unique _ k a r); [assumption | lia].
Qed.

Lemma mod_pack (a r k : N) : r < k -> (a * k + r) mod k = r.
Proof.
  intros H. symmetry. apply (N.mod_unique _ k a r); [assumption | lia].
Qed.

Lemma encode_two (n0 n1 : N) :
  194 <= n0 <= 223 -> 128 <= n1 <= 191 ->
  utf8_encode_char ((n0 - 192) * 64 + (n1 - 128)) = [byte_of n0; byte_of n1].
Proof.
  intros H0 H1. unfold utf8_encode_char.
  assert (Hlo : ((n0 - 192) * 64 + (n1 - 128) <? 128) = false)
    by (apply N.ltb_ge; lia).
  assert (Hhi : ((n0 - 192) * 64 + (n1 - 128) <? 2048) = true)
    by (apply N.ltb_lt; lia).
  rewrite Hlo, Hhi, div_pack, mod_pack by lia.
  repeat f_equal; lia.
Qed.

Lemma encode_three (n0 n1 n2 : N) :
  224 <= n0 <= 239 -> 128 <= n1 <= 191 -> 128 <= n2 <= 191 ->
  (n0 = 224 -> 160 <= n1) ->
  utf8_encode_char ((n0 - 224) * 4096 + (n1 - 128) * 64 + (n2 - 128)) =
  [byte_of n0; byte_of n1; byte_of n2].
Proof.
  intros H0 H1 H2 Hmin. unfold utf8_encode_char.
  set (c := (n0 - 224) * 4096 + (n1 - 128) * 64 + (n2 - 128)).
  assert (Hc64 : c = ((n0 - 224) * 64 + (n1 - 128)) * 64 + (n2 - 128))
    by (unfold c; lia).
  assert (Hc4096 : c = (n0 - 224) * 4096 + ((n1 - 128) * 64 + (n2 - 128)))
    by (unfold c; lia).
  assert (E1 : (c <? 128) = false) by (apply N.ltb_ge; unfold c; lia).
  assert (E2 : (c <? 2048) = false) by (apply N.ltb_ge; unfold c; lia).
  assert (E3 : (c <? 65536) = true) by (apply N.ltb_lt; unfold c; lia).
  rewrite E1, E2, E3.
  rewrite Hc4096 at 1. rewrite div_pack by lia.
  rewrite Hc64. rewrite div_pack, !mod_pack by lia.
  repeat f_equal; lia.
Qed.

Lemma encode_four (n0 n1 n2 n3 : N) :
  240 <= n0 <= 244 -> 128 <= n1 <= 191 -> 128 <= n2 <= 191 ->
  128 <= n3 <= 191 -> (n0 = 240 -> 144 <= n1) ->
  utf8_encode_char ((n0 - 240) * 262144 + (n1 - 128) * 4096
                    + (n2 - 128) * 64 + (n3 - 128)) =
  [byte_of n0; byte_of n1; byte_of n2; byte_of n3].
Proof.
  intros H0 H1 H2 H3 Hmin. unfold utf8_encode_char.
  set (c := (n0 - 240) * 262144 + (n1 - 128) * 4096
            + (n2 - 128) * 64 + (n3 - 128)).
  assert (Hc64 : c = ((n0 - 240) * 4096 + (n1 - 128) * 64 + (n2 - 128)) * 64
                     + (n3 - 128)) by (unfold c; lia).
  assert (Hc4096 : c = ((n0 - 240) * 64 + (n1 - 128)) * 4096
                       + ((n2 - 128) * 64 + (n3 - 128))) by (unfold c; lia).
  assert (Hc262144 : c = (n0 - 240) * 262144
                         + ((n1 - 128) * 4096 + (n2 - 128) * 64 + (n3 - 128)))
    by (unfold c; lia).
  assert (E1 : (c <? 128) = false) by (apply N.ltb_ge; unfold c; lia).
  assert (E2 : (c <? 2048) = false) by (apply N.ltb_ge; unfold c; lia).
  assert (E3 : (c <? 65536) = false) by (apply N.ltb_ge; unfold c; lia).
  rewrite E1, E2, E3.
  rewrite Hc262144 at 1. rewrite div_pack by lia.
  rewrite Hc4096 at 1. rewrite div_pack by lia.
  rewrite mod_pack by lia.
  rewrite Hc64. rewrite div_pack, mod_pack by lia.
  replace ((n0 - 240) * 4096 + (n1 - 128) * 64 + (n2 - 128))
    with (((n0 - 240) * 64 + (n1 - 128)) * 64 + (n2 - 128)) by lia.
  rewrite mod_pack by lia.
  repeat f_equal; lia.
Qed.

Lemma utf8_encode_cons (c : N) (t : str) :
  utf8_encode (c :: t) = utf8_encode_char c ++ utf8_encode t.
Proof. reflexivity. Qed.

Lemma utf8_roundtrip_le (n : nat) :
  forall data, (List.length data <= n)%nat ->
  forall text, utf8_decode data = Some text -> utf8_encode text = data.
Proof.
  induction n as [|n IH]; intros data Hlen text Hdec.
  - destruct data; [|cbn in Hlen; lia]. cbn in Hdec. now inversion Hdec.
  - destruct data as [|b0 r0]; [cbn in Hdec; now inversion Hdec|].
    cbn [List.length] in Hlen. cbn [utf8_decode] in Hdec.
    destruct (Byte.to_N b0 <? 128) eqn:E0.
    { destruct (utf8_decode r0) as [t|] eqn:Er; [|discriminate].
      cbn in Hdec. inversion Hdec; subst. rewrite utf8_encode_cons.
      unfold utf8_encode_char. rewrite E0, byte_of_to_N. cbn [app].
      f_equal. apply IH; [lia | assumption]. }
    destruct (in_range 194 223 (Byte.to_N b0)) eqn:E1.
    { destruct r0 as [|b1 r1]; [discriminate|].
      destruct (continuation (Byte.to_N b1)) eqn:C1; [|discriminate].
      destruct (utf8_decode r1) as [t|] eqn:Er; [|discriminate].
      cbn in Hdec. inversion Hdec; subst. rewrite utf8_encode_cons.
      apply in_range_spec in E1. apply in_range_spec in C1.
      rewrite encode_two, !byte_of_to_N by assumption. cbn [app].
      do 2 f_equal. apply IH; [cbn [List.length] in Hlen; lia | assumption]. }
    destruct (in_range 224 239 (Byte.to_N b0)) eqn:E2.
    { destruct r0 as [|b1 [|b2 r2]]; try discriminate.
      destruct (in_range _ _ (Byte.to_N b1)) eqn:C1; [|discriminate].
      destruct (continuation (Byte.to_N b2)) eqn:C2; [|discriminate].
      cbn [andb] in Hdec.
      destruct (utf8_decode r2) as [t|] eqn:Er; [|discriminate].
      cbn in Hdec. inversion Hdec; subst. rewrite utf8_encode_cons.
      apply in_range_spec in E2. apply in_range_spec in C1.
      apply in_range_spec in C2.
      rewrite encode_three, !byte_of_to_N.
      - cbn [app]. do 3 f_equal.
        apply IH; [cbn [List.length] in Hlen; lia | assumption].
      - assumption.
      - destruct (Byte.to_N b0 =? 224), (Byte.to_N b0 =? 237); lia.
      - assumption.
      - intros E. rewrite E in C1. cbn in C1. lia. }
    destruct (in_range 240 244 (Byte.to_N b0)) eqn:E3; [|discriminate].
    destruct r0 as [|b1 [|b2 [|b3 r3]]]; try discriminate.
    destruct (in_range _ _ (Byte.to_N b1)) eqn:C1; [|discriminate].
    destruct (continuation (Byte.to_N b2)) eqn:C2; [|discriminate].
    destruct (continuation (Byte.to_N b3)) eqn:C3; [|discriminate].
    cbn [andb] in Hdec.
    destruct (utf8_decode r3) as [t|] eqn:Er; [|discriminate].
    cbn in Hdec. inversion Hdec; subst. rewrite utf8_encode_cons.
    apply in_range_spec in E3. apply in_range_spec in C1.
    apply in_range_spec in C2. apply in_range_spec in C3.
    rewrite encode_four, !byte_of_to_N.
    + cbn [app]. do 4 f_equal.
      apply IH; [cbn [List.length] in Hlen; lia | assumption].
    + assumption.
    + destruct (Byte.to_N b0 =? 240), (Byte.to_N b0 =? 244); lia.
    + assumption.
    + assumption.
    + intros E. rewrite E in C1. cbn in C1. lia.
Qed.

(** Encoding what the strict decoder returned gives the bytes back. *)
Lemma utf8_roundtrip (data : bytes) (text : str) :
  utf8_decode data = Some text -> utf8_encode text = data.
Proof. now apply (utf8_roundtrip_le (List.length data)). Qed.

(** ** Newline translation *)

Lemma universal_newlines_no_cr (t : str) :
  ~ In carriage_return t -> universal_newlines t = t.
Proof.
  induction t as [|c t IH]; [reflexivity|]. intros H.
  cbn [universal_newlines].
  destruct (c =? carriage_return) eqn:E.
  - apply N.eqb_eq in E. exfalso. apply H. now left.
  - f_equal. apply IH. intros Hin. apply H. now right.
Qed.

Lemma universal_newlines_length_le (n : nat) :
  forall t, (List.length t <= n)%nat ->
            (List.length (universal_newlines t) <= List.length t)%nat.
Proof.
  induction n as [|n IH]; intros t Hn.
  - destruct t; [cbn; lia | cbn in Hn; lia].
  - destruct t as [|c t]; [cbn; lia|].
    cbn [universal_newlines]. cbn [List.length] in Hn.
    destruct (c =? carriage_return).
    + destruct t as [|d t]; [cbn; lia|].
      cbn [List.length] in Hn.
      destruct (d =? newline); cbn [List.length].
      * assert (H : (List.length (universal_newlines t)
                     <= List.length t)%nat) by (apply IH; lia).
        lia.
      * assert (H : (List.length (universal_newlines (d :: t))
                     <= List.length (d :: t))%nat)
          by (apply IH; cbn [List.length]; lia).
        cbn [List.length] in H. lia.
    + cbn [List.length].
      assert (H : (List.length (universal_newlines t)
                   <= List.length t)%nat) by (apply IH; lia).
      lia.
Qed.

Lemma universal_newlines_shorter (t : str) :
  (List.length (universal_newlines t) <= List.length t)%nat.
Proof. now apply (universal_newlines_length_le (List.length t)). Qed.

Lemma latin1_no_cr (data : bytes) :
  ~ In Byte.x0d data -> ~ In carriage_return (latin1_decode data).
Proof.
  intros H Hin. apply H. unfold latin1_decode in Hin.
  apply in_map_iff in Hin as [b [Hb Hin]].
  assert (E : Byte.of_N (Byte.to_N b) = Byte.of_N carriage_return)
    by now rewrite Hb.
  rewrite Byte.of_to_N in E. cbn in E. inversion E. now subst.
Qed.

Lemma block_text_layout (parts : list str) (name c : str) :
  block_text (mkBlock parts name c) =
  lit "My " ++ rel_path parts name
  ++ [58; newline; newline; dquote; newline] ++ c
  ++ [newline; dquote; newline; newline].
Proof.
  unfold block_text, block_writes. cbn [b_parts b_name b_content List.concat].
  rewrite app_nil_r, <- !app_assoc. reflexivity.
Qed.

(** ** The branches of the loop body *)

Section OutcomeFacts.

Variable visible : list str -> bytes.

(** The loop body takes one of its branches. *)
Lemma process_file_outcome (parts : list str) (s : state) (name : str)
      (f : file) :
  outcome visible parts name f s (process_file visible parts s (name, f)).
Proof.
  destruct (raised s) eqn:Hr.
  { rewrite process_file_raised by assumption. now apply not_run. }
  destruct (str_eqb name package_lock) eqn:Hl.
  { apply str_eqb_eq in Hl. subst name. rewrite process_file_lock.
    now apply passed_over. }
  destruct (stat_raises parts name f) eqn:Hs.
  { rewrite (process_file_stat visible _ _ _ _ Hr Hl Hs).
    now apply stat_failed. }
  destruct (eligible parts name f) eqn:He.
  - destruct (open_read visible s parts name f utf_8) as [data|msg] eqn:Ho.
    + destruct (utf8_decode data) as [text|] eqn:Hd.
      * destruct (encodable (rel_path parts name)) eqn:Hc.
        -- rewrite (process_file_utf8 visible _ _ _ _ _ _ Hr Hs He Ho Hd Hc).
           now apply (added visible parts name f s data text).
        -- rewrite (process_file_refused visible _ _ _ _ _ _
                      Hr Hs He Ho Hd Hc).
           now apply (write_refused visible parts name f s data text).
      * destruct (open_read visible s parts name f latin_1)
          as [data'|msg] eqn:Ho'.
        -- destruct (encodable (rel_path parts name)) eqn:Hc.
           ++ rewrite (process_file_latin1 visible _ _ _ _ _ _
                         Hr Hs He Ho Hd Ho' Hc).
              now apply (added_latin1 visible parts name f s data data').
           ++ rewrite (process_file_unreadable visible _ _ _ _ data
                         Hr Hs He Ho Hd (or_introl Hc)).
              apply (retry_failed visible parts name f s data); auto.
        -- assert (Hc : encodable (rel_path parts name) = false \/
                        exists msg,
                          open_read visible s parts name f latin_1
                          = ReadError msg) by (right; now exists msg).
           rewrite (process_file_unreadable visible _ _ _ _ data
                      Hr Hs He Ho Hd Hc).
           now apply (retry_failed visible parts name f s data).
    + rewrite (process_file_error visible _ _ _ _ _ Hr Hs He Ho).
      now apply read_failed.
  - assert (He' := He). unfold eligible in He'. rewrite Hl in He'.
    destruct (path_exists parts name f) eqn:Hx.
    + cbn [negb andb] in He'. apply negb_false_iff in He'.
      rewrite (process_file_binary visible _ _ _ _ Hr Hs Hl Hx He').
      now apply skipped_binary.
    + rewrite (process_file_vanished visible _ _ _ _ Hs Hx).
      apply passed_over; [assumption|]. now rewrite Hl, Hx.
Qed.

(** What every branch keeps, the loop keeps. *)
Lemma loop_invariant (I : state -> Prop)
      (l : list (list str * (str * file))) :
  (forall parts name f s s',
      In (parts, (name, f)) l ->
      outcome visible parts name f s s' -> I s -> I s') ->
  forall st, I st -> I (fold_left (body visible) l st).
Proof.
  induction l as [|[p [n f]] l IH]; intros Hstep st Hst; [assumption|].
  cbn [fold_left]. apply IH.
  - intros parts name g s s' Hin. apply Hstep. now right.
  - unfold body. cbn [fst snd].
    apply (Hstep p n f st); [now left | apply process_file_outcome
                            | assumption].
Qed.

End OutcomeFacts.

(** ** Which files are opened *)

Lemma NoDup_map_same {A B : Type} (g : A -> B) (l : list A) (x y : A) :
  NoDup (map g l) -> In x l -> In y l -> g x = g y -> x = y.
Proof.
  induction l as [|z l IH]; [intros _ []|].
  cbn [map]. intros Hnd Hx Hy E. inversion Hnd as [|? ? Hn Hr]; subst.
  destruct Hx as [->|Hx], Hy as [->|Hy]; auto.
  - exfalso. apply Hn. rewrite E. now apply in_map.
  - exfalso. apply Hn. rewrite <- E. now apply in_map.
Qed.

Section OpenFacts.

Variable visible : list str -> bytes.

(** A step opens no file but its own, and only when it is eligible. *)
Lemma process_file_opens (p q : list str) (n m : str) (g : file)
      (enc : encoding) (s : state) :
  In (EvOpen p n enc) (trace (process_file visible q s (m, g))) ->
  In (EvOpen p n enc) (trace s) \/
  ((q, m) = (p, n) /\ eligible q m g = true).
Proof.
  intros H.
  assert (Hown : forall e, In (EvOpen p n enc) [EvOpen q m e] ->
                           (q, m) = (p, n)).
  { intros e [E|[]]. now inversion E. }
  destruct (process_file_outcome visible q s m g)
    as [Hr | Hr Hl Hs | He Hp | He Hl Hx Hb | msg He Ho
        | data text He Ho Hd Hc | data text He Ho Hd Hc
        | data data' He Ho Hd Ho' Hc | data He Ho Hd Hc];
    cbn [py_print emit write_block raise_uncaught trace] in H;
    rewrite ?in_app_iff in H; cbn [In] in H; try (now left).
  - destruct H as [H|[H|[]]]; [now left | discriminate].
  - destruct H as [[H|[H|[]]]|[H|[]]]; try discriminate; [now left|].
    right. split; [|assumption]. now inversion H.
  - destruct H as [[[H|[H|[]]]|H]|[H|[]]]; try discriminate; [now left| |].
    + right. split; [|assumption]. now inversion H.
    + apply in_map_iff in H as [x [Hx _]]. discriminate.
  - destruct H as [[H|[H|[]]]|[H|[]]]; try discriminate; [now left|].
    right. split; [|assumption]. now inversion H.
  - destruct H as [[[H|[H|[H|[]]]]|H]|[H|[]]]; try discriminate;
      [now left| | |].
    + right. split; [|assumption]. now inversion H.
    + right. split; [|assumption]. now inversion H.
    + apply in_map_iff in H as [x [Hx _]]. discriminate.
  - destruct H as [[H|[H|[H|[]]]]|[H|[]]]; try discriminate; [now left| |].
    + right. split; [|assumption]. now inversion H.
    + right. split; [|assumption]. now inversion H.
Qed.

Lemma loop_opens (p : list str) (n : str) (enc : encoding)
      (l : list (list str * (str * file))) :
  forall st,
    In (EvOpen p n enc) (trace (fold_left (body visible) l st)) ->
    In (EvOpen p n enc) (trace st) \/
    exists f, In (p, (n, f)) l /\ eligible p n f = true.
Proof.
  induction l as [|[q [m g]] l IH]; intros st H; [now left|].
  cbn [fold_left] in H. apply IH in H as [H|[f [Hin He]]].
  - unfold body in H. cbn [fst snd] in H.
    apply process_file_opens in H as [H|[E He]]; [now left|].
    inversion E; subst. right. exists g. split; [now left | assumption].
  - right. exists f. split; [now right | assumption].
Qed.

End OpenFacts.

(** ** The output file among the entries *)

Section OwnBlock.

Variable visible : list str -> bytes.

Lemma set_entry_has {A : Type} (n : str) (v : A) (l : list (str * A)) :
  has_name n l = true ->
  exists m, str_eqb m n = true /\ In (m, v) (set_entry n v l).
Proof.
  induction l as [|[k w] l IH]; [discriminate|].
  cbn [has_name existsb fst set_entry].
  destruct (str_eqb k n) eqn:E.
  - intros _. exists k. split; [assumption | now left].
  - cbn [orb]. intros H. destruct (IH H) as [m [Hm Hin]].
    exists m. split; [assumption | now right].
Qed.

(** The opened sink is one of the entries the walk processes. *)
Lemma open_sink_visited (slot : list str -> nat) (cwd d : dir) :
  open_sink slot cwd = Some d ->
  exists f, In ([], (output_file, f)) (visited [] d).
Proof.
  destruct cwd as [files dirs]. cbn [open_sink].
  destruct (has_name output_file dirs); [discriminate|].
  destruct (has_name output_file files) eqn:Hf; intros H; inversion H; subst;
    exists (regular []); rewrite visited_unfold; apply in_or_app; left;
    change (str_in node_modules (walk_root [])) with false; cbn iota;
    apply in_map_iff; exists (output_file, regular []);
    (split; [reflexivity|]).
  - destruct (set_entry_has output_file (regular []) files Hf)
      as [m [Hm Hin]].
    apply str_eqb_eq in Hm. now subst.
  - apply insert_at_In. now left.
Qed.

(** Its step adds a block whenever it runs. *)
Lemma sink_step_emits (s : state) (f : file) :
  raised s = false ->
  exists c,
    emitted (process_file visible [] s (output_file, f)) =
    emitted s ++ [mkBlock [] output_file c].
Proof.
  intros Hr. rewrite process_file_emitted, process_file_raises, Hr.
  change (stat_raises [] output_file f) with false.
  change (eligible [] output_file f) with true.
  change (encodable (rel_path [] output_file)) with true.
  rewrite andb_false_r. cbn [orb negb andb].
  unfold decoded, open_read. change (is_sink [] output_file) with true.
  cbn iota.
  destruct (utf8_decode (on_disk visible (written (trace s)))) as [t|];
    eexists; reflexivity.
Qed.

Lemma loop_emits_sink (l : list (list str * (str * file))) (f : file) :
  In ([], (output_file, f)) l ->
  forall st,
    raised (fold_left (body visible) l st) = false ->
    exists c,
      In (mkBlock [] output_file c) (emitted (fold_left (body visible) l st)).
Proof.
  intros Hin st Hr. apply in_split in Hin as (l1 & l2 & ->).
  apply loop_clean in Hr. unfold body at 1 in Hr. cbn [fst snd] in Hr.
  apply step_clean in Hr as [Hr _].
  rewrite fold_left_app. cbn [fold_left].
  destruct (sink_step_emits (fold_left (body visible) l1 st) f Hr)
    as [c Hc].
  exists c.
  destruct (grows_fold (body visible) l2
              (fun s x => process_file_grows visible (fst x) s (snd x))
              (body visible (fold_left (body visible) l1 st)
                    ([], (output_file, f))))
    as (_ & bs & _ & He & _).
  rewrite He. apply in_or_app. left. unfold body at 1. cbn [fst snd].
  rewrite Hc. apply in_or_app. right. now left.
Qed.

End OwnBlock.

(** ** Runs that end with an exception *)

Lemma set_entry_In_inv {A : Type} (n : str) (v : A) (l : list (str * A))
      (m : str) (w : A) :
  In (m, w) (set_entry n v l) -> m = n \/ In (m, w) l.
Proof.
  induction l as [|[k u] l IH]; [intros []|]. cbn [set_entry].
  destruct (str_eqb k n) eqn:E.
  - intros [H|H].
    + inversion H; subst. left. now apply str_eqb_eq.
    + right. now right.
  - intros [H|H]; [right; now left|].
    destruct (IH H) as [->|Hin]; [now left | right; now right].
Qed.

(** An entry of the opened tree is the sink or an entry of the working
    directory as it was. *)
Lemma open_sink_file_at_inv (slot : list str -> nat) (cwd d : dir)
      (parts : list str) (name : str) (f : file) :
  open_sink slot cwd = Some d ->
  file_at d parts name f ->
  is_sink parts name = true \/ file_at cwd parts name f.
Proof.
  destruct cwd as [files dirs]. cbn [open_sink].
  destruct (has_name output_file dirs); [discriminate|].
  intros H Hat.
  destruct (has_name output_file files); inversion H; subst; clear H;
    inversion Hat as [? ? ? ? Hin | ? ? n sub q ? ? Hd Hq]; subst.
  - apply set_entry_In_inv in Hin as [->|Hin].
    + left. apply str_eqb_refl.
    + right. now constructor.
  - right. econstructor; eassumption.
  - apply insert_at_In in Hin as [E|Hin].
    + inversion E; subst. left. apply str_eqb_refl.
    + right. now constructor.
  - right. econstructor; eassumption.
Qed.

Section RaiseFacts.

Variable visible : list str -> bytes.
Variable slot : list str -> nat.

(** The loop raises exactly when [Path.exists()] raises on one of its
    entries that is not the lock file. *)
Lemma loop_raises (l : list (list str * (str * file))) :
  forall st,
    raised (fold_left (body visible) l st) = true <->
    raised st = true \/
    exists parts name f,
      In (parts, (name, f)) l /\ str_eqb name package_lock = false /\
      stat_raises parts name f = true.
Proof.
  induction l as [|[p [n g]] l IH]; intros st; cbn [fold_left].
  - split; [now left | intros [H|(? & ? & ? & [] & _)]; exact H].
  - rewrite IH. unfold body at 1. cbn [fst snd].
    rewrite process_file_raises, orb_true_iff, andb_true_iff, negb_true_iff.
    split.
    + intros [[H|[Hl Hs]]|(parts & name & f & Hin & Hl & Hs)].
      * now left.
      * right. exists p, n, g. split; [now left | now split].
      * right. exists parts, name, f. split; [now right | now split].
    + intros [H|(parts & name & f & [E|Hin] & Hl & Hs)].
      * left. now left.
      * inversion E; subst. left. right. now split.
      * right. exists parts, name, f. now repeat split.
Qed.

(** Once the sink is open, the run fails exactly when [Path.exists()]
    raises for an entry that the walk reaches and that is not the lock
    file. *)
Lemma run_fails (cwd d : dir) :
  open_sink slot cwd = Some d ->
  generate_arcade_project_files visible slot cwd = None <->
  exists parts name f,
    reached cwd parts name f /\ name <> package_lock /\
    f_stat_raises f = true.
Proof.
  intros Ho. unfold generate_arcade_project_files. rewrite Ho. cbn zeta.
  rewrite walk_visited.
  destruct (raised (fold_left (body visible) (visited [] d) init_state))
    eqn:Hr.
  - split; [intros _|reflexivity].
    apply loop_raises in Hr as [Hr|(parts & name & f & Hin & Hl & Hs)];
      [discriminate|].
    exists parts, name, f.
    assert (Hsink : is_sink parts name = false).
    { unfold stat_raises in Hs. now destruct (is_sink parts name). }
    unfold stat_raises in Hs. rewrite Hsink in Hs.
    split; [|split; [now apply str_eqb_neq | exact Hs]].
    split; [|split; [exact Hsink | now apply (visited_root d [] parts (name, f))]].
    destruct (visited_file_at d [] parts name f Hin) as (q & Hq & Hat).
    cbn [app] in Hq. subst q.
    destruct (open_sink_file_at_inv slot cwd d parts name f Ho Hat)
      as [Hs'|Hcwd]; [congruence | exact Hcwd].
  - split; [discriminate|].
    intros (parts & name & f & Hre & Hl & Hs).
    assert (Htrue : raised (fold_left (body visible) (visited [] d)
                              init_state) = true).
    { apply loop_raises. right. exists parts, name, f.
      split; [now apply (run_reached slot cwd) |].
      split; [now apply str_eqb_neq|].
      unfold stat_raises. destruct Hre as (_ & Hsink & _).
      now rewrite Hsink. }
    congruence.
Qed.

End RaiseFacts.

(** ** The suffix of a name *)

Lemma rfind_app_found (c : N) (a b : str) (j : nat) :
  rfind c b = Some j -> rfind c (a ++ b) = Some (List.length a + j)%nat.
Proof.
  intros H. induction a as [|x a IH]; [exact H|].
  cbn [app rfind List.length]. now rewrite IH.
Qed.

Lemma skipn_length_app {A : Type} (a b : list A) :
  skipn (List.length a) (a ++ b) = b.
Proof. induction a as [|x a IH]; [reflexivity | exact IH]. Qed.

(** The suffix of a non-empty stem followed by a dot and letters without
    a dot is that ending. *)
Lemma suffix_app (stem ext : str) :
  stem <> [] -> rfind dot ext = Some O -> (2 <= List.length ext)%nat ->
  suffix (stem ++ ext) = ext.
Proof.
  intros Hs Hr Hl. unfold suffix.
  rewrite (rfind_app_found dot stem ext O Hr), Nat.add_0_r.
  assert (E0 : Nat.ltb 0 (List.length stem) = true).
  { apply Nat.ltb_lt. destruct stem; [congruence | cbn; lia]. }
  assert (E1 : Nat.ltb (List.length stem)
                 (List.length (stem ++ ext) - 1) = true).
  { apply Nat.ltb_lt. rewrite length_app. lia. }
  rewrite E0, E1. cbn [andb]. apply skipn_length_app.
Qed.

(** Each listed suffix is a dot followed by letters, none of them a dot. *)
Lemma binary_suffix_shape (ext : str) :
  In ext binary_suffixes ->
  rfind dot ext = Some O /\ (2 <= List.length ext)%nat.
Proof.
  intros H. cbn in H.
  repeat (destruct H as [<-|H]; [split; [reflexivity | cbn; lia]|]).
  destruct H.
Qed.

(** A name is excluded exactly when it is a non-empty stem followed by one
    of the listed suffixes. *)
Lemma binary_excluded_shape (name : str) :
  binary_excluded name = true <->
  exists stem ext,
    stem <> [] /\ In ext binary_suffixes /\ name = stem ++ ext.
Proof.
  split.
  - intros H. unfold binary_excluded in H. apply str_mem_In in H.
    unfold suffix in H.
    destruct (rfind dot name) as [i|] eqn:Er; [|destruct H as [H|H];
      [discriminate | cbn in H; intuition discriminate]].
    destruct (Nat.ltb 0 i && Nat.ltb i (List.length name - 1))%bool eqn:Ec.
    2:{ cbn in H. intuition discriminate. }
    apply andb_true_iff in Ec as [E0 E1].
    apply Nat.ltb_lt in E0. apply Nat.ltb_lt in E1.
    exists (firstn i name), (skipn i name).
    split; [|split; [exact H | now rewrite firstn_skipn]].
    intros E. apply (f_equal (@List.length N)) in E.
    rewrite length_firstn in E. cbn in E. lia.
  - intros (stem & ext & Hs & He & ->).
    destruct (binary_suffix_shape ext He) as [Hr Hl].
    unfold binary_excluded.
    rewrite (suffix_app stem ext Hs Hr Hl). now apply str_mem_In.
Qed.

(** * The claims *)

(** C1 (the code departs from it). An empty working directory should give
    an output file with zero blocks and a summary of 0 files. The sink is
    created in the working directory before the walk lists it, so every
    run that returns has emitted a block for the output file itself (a run
    that does not return could not open the sink, or met an exception
    during the walk); on the empty directory that file is read while still
    empty, the run gives this one block and reports 1. *)
Theorem empty_root_has_one_block
        (visible : list str -> bytes) (slot : list str -> nat) :
  (forall cwd,
      match generate_arcade_project_files visible slot cwd with
      | Some (_, st) =>
          exists c, In (mkBlock [] output_file c) (emitted st)
      | None =>
          open_sink slot cwd = None \/
          exists d, open_sink slot cwd = Some d /\
                    raised (walk visible [] d init_state) = true
      end) /\
  exists cwd1 st,
    generate_arcade_project_files visible slot (Dir [] []) = Some (cwd1, st) /\
    emitted st = [mkBlock [] output_file []] /\
    file_count st = 1%nat /\
    List.concat (written (trace st)) =
      lit "My arcade_project_complete.txt:"
      ++ [newline; newline; dquote; newline; newline; dquote; newline;
          newline] /\
    In (check_box :: lit " Total files processed: 1") (console (trace st)).
Proof.
  split.
  - intros cwd. unfold generate_arcade_project_files.
    destruct (open_sink slot cwd) as [d|] eqn:Ho; [|now left].
    cbn zeta. destruct (raised (walk visible [] d init_state)) eqn:Hr.
    { right. now exists d. }
    cbn [emit emitted]. rewrite walk_visited in *.
    destruct (open_sink_visited slot cwd d Ho) as [f Hf].
    now apply (loop_emits_sink visible _ f).
  - unfold generate_arcade_project_files, open_sink.
    cbn [has_name existsb map]. unfold insert_at.
    rewrite firstn_nil, skipn_nil. cbn [app].
    do 2 eexists. split; [reflexivity|].
    repeat split; try reflexivity.
    vm_compute. tauto.
Qed.

(** C2. Running the function on the working directory that a first run
    left behind returns as the first run did: the same tree, hence the
    same bytes in the output file, and the same final state. *)
Theorem second_run_same_output
        (visible : list str -> bytes) (slot : list str -> nat)
        (cwd cwd1 : dir) (st1 : state) :
  generate_arcade_project_files visible slot cwd = Some (cwd1, st1) ->
  exists cwd2 st2,
    generate_arcade_project_files visible slot cwd1 = Some (cwd2, st2) /\
    output_of cwd1 = Some (regular (output_bytes st1)) /\
    output_of cwd2 = output_of cwd1 /\
    cwd2 = cwd1 /\ st2 = st1.
Proof.
  intros Hrun.
  destruct (run_returns _ _ _ _ _ Hrun) as (d & Ho & Hr & Hc & Hs).
  exists cwd1, st1.
  destruct (run_state _ _ _ _ _ Hrun) as (_ & _ & _ & Hout & _).
  repeat split; try assumption.
  unfold generate_arcade_project_files.
  rewrite Hc at 1. rewrite (open_sink_again slot cwd d _ Ho).
  cbn zeta. rewrite Hr. now rewrite <- Hc, <- Hs.
Qed.

(** C3 (the code departs from it). A directory whose name only contains
    node_modules should have its eligible files emitted. The test of
    line 15 looks for node_modules anywhere in the root string, so the walk
    of any directory whose name contains node_modules leaves the state as
    it was; the readable text file a.txt of the directory
    node_modules_backup gets no block, and the only block of that run is
    the one for the output file. *)
Theorem substring_directory_gets_no_block
        (visible : list str -> bytes) (slot : list str -> nat) :
  let backup := lit "node_modules_backup" in
  let a_txt := regular (ascii_bytes "hello") in
  let cwd := Dir [] [(backup, Dir [(lit "a.txt", a_txt)] [])] in
  (forall parts n sub st,
      str_in node_modules n = true ->
      walk visible (parts ++ [n]) sub st = st) /\
  str_eqb backup node_modules = false /\
  eligible [backup] (lit "a.txt") a_txt = true /\
  exists cwd1 st,
    generate_arcade_project_files visible slot cwd = Some (cwd1, st) /\
    filter (block_for [backup] (lit "a.txt")) (emitted st) = [] /\
    emitted st = [mkBlock [] output_file []] /\
    file_count st = 1%nat.
Proof.
  cbn zeta. split; [|split; [reflexivity | split; [reflexivity|]]].
  - intros parts n sub st Hn. rewrite walk_visited, visited_passed_over.
    + reflexivity.
    + rewrite walk_root_snoc. apply str_in_app_l.
      change (slash :: n) with ([slash] ++ n). now apply str_in_app_l.
  - unfold generate_arcade_project_files, open_sink.
    cbn [has_name existsb map fst str_eqb]. unfold insert_at.
    rewrite firstn_nil, skipn_nil. cbn [app].
    do 2 eexists. split; [reflexivity|].
    repeat split; reflexivity.
Qed.

(** C4. Whatever the tree, the output of a run is made of the blocks
    recorded in [emitted], none of them comes from a file below a
    directory named node_modules, and none from a file named
    package-lock.json. *)
Theorem no_block_under_node_modules
        (visible : list str -> bytes) (slot : list str -> nat)
        (cwd cwd1 : dir) (st : state) :
  generate_arcade_project_files visible slot cwd = Some (cwd1, st) ->
  written (trace st) = flat_map block_writes (emitted st) /\
  Forall (fun b => ~ In node_modules (b_parts b) /\ b_name b <> package_lock)
         (emitted st).
Proof.
  intros Hrun. split; [apply (run_state _ _ _ _ _ Hrun)|].
  destruct (run_returns _ _ _ _ _ Hrun) as (d & _ & _ & _ & ->).
  cbn [emit emitted]. rewrite walk_visited.
  apply loop_emitted_Forall; [|constructor].
  intros p n f c Hin He. cbn [b_parts b_name]. split.
  - intros Hnm. apply (visited_root d [] p (n, f)) in Hin.
    rewrite (str_in_walk_root_part _ _ Hnm) in Hin. discriminate.
  - apply eligible_split in He as (Hl & _). now apply str_eqb_neq.
Qed.

(** C5 (amended). For every eligible file that the walk reaches, that
    reads as UTF-8 text and whose path the sink can encode, a run that
    returns emits exactly one block; its text is the header line
    'My <relative path>:', a blank line, a line holding one double quote,
    the content, a line holding one double quote and a blank line. The
    content is the decoded text of the file after the newline translation
    of text-mode reading (CR LF and a lone CR become LF); when the file
    has no carriage return it is the decoded text itself, and the bytes
    the sink writes for it are the bytes of the file. *)
Theorem text_file_block
        (visible : list str -> bytes) (slot : list str -> nat)
        (cwd cwd1 : dir) (st : state)
        (parts : list str) (name : str) (f : file)
        (data : bytes) (text : str) :
  unique_names cwd ->
  generate_arcade_project_files visible slot cwd = Some (cwd1, st) ->
  reached cwd parts name f ->
  eligible parts name f = true ->
  encodable (rel_path parts name) = true ->
  f_read f = ReadOk data ->
  utf8_decode data = Some text ->
  filter (block_for parts name) (emitted st) =
    [mkBlock parts name (universal_newlines text)] /\
  List.concat (written (trace st)) = flat_map block_text (emitted st) /\
  block_text (mkBlock parts name (universal_newlines text)) =
    lit "My " ++ rel_path parts name
    ++ [58; newline; newline; dquote; newline] ++ universal_newlines text
    ++ [newline; dquote; newline; newline] /\
  In (EvPrint (check_mark :: lit " Added: " ++ rel_path parts name))
     (trace st) /\
  (~ In carriage_return text ->
   universal_newlines text = text /\
   utf8_encode (universal_newlines text) = data).
Proof.
  intros Hu Hrun Hre He Hc Hr Hd.
  assert (Hs : is_sink parts name = false) by apply Hre.
  assert (Hl : str_eqb name package_lock = false)
    by now apply eligible_split in He.
  assert (Hopen : forall s,
             open_read visible s parts name f utf_8 = ReadOk data).
  { intros s. unfold open_read. now rewrite Hs. }
  repeat split.
  - rewrite (run_blocks_for visible slot cwd cwd1 st parts name f Hu Hrun Hre).
    rewrite He, Hc. unfold decoded. now rewrite Hopen, Hd.
  - destruct (run_state visible slot _ _ _ Hrun) as (Hw & _).
    rewrite Hw. apply concat_block_writes.
  - apply block_text_layout.
  - apply (run_trace_In visible slot cwd cwd1 st parts name f); try assumption.
    intros s Hrs Hss.
    rewrite (process_file_utf8 visible _ _ _ _ _ _ Hrs Hss He (Hopen s) Hd Hc).
    cbn. apply in_or_app. right. now left.
  - now apply universal_newlines_no_cr.
  - rewrite universal_newlines_no_cr by assumption.
    now apply utf8_roundtrip.
Qed.


(** C7 (amended). For every eligible file that the walk reaches, whose
    bytes are not UTF-8 and whose path the sink can encode, a run that
    returns emits exactly one block, made by the Latin-1 retry, and prints
    the 'Added (latin-1)' line. The content is the Latin-1 decoding of the
    bytes after the newline translation of text-mode reading: never longer
    than the file, and one character per byte, equal to the plain Latin-1
    decoding, when the file has no carriage-return byte. *)
Theorem latin1_fallback_block
        (visible : list str -> bytes) (slot : list str -> nat)
        (cwd cwd1 : dir) (st : state)
        (parts : list str) (name : str) (f : file) (data : bytes) :
  unique_names cwd ->
  generate_arcade_project_files visible slot cwd = Some (cwd1, st) ->
  reached cwd parts name f ->
  eligible parts name f = true ->
  encodable (rel_path parts name) = true ->
  f_read f = ReadOk data ->
  f_reread f = ReadOk data ->
  utf8_decode data = None ->
  filter (block_for parts name) (emitted st) =
    [mkBlock parts name (universal_newlines (latin1_decode data))] /\
  In (EvPrint (check_mark :: lit " Added (latin-1): " ++ rel_path parts name))
     (trace st) /\
  (List.length (universal_newlines (latin1_decode data))
   <= List.length data)%nat /\
  (~ In Byte.x0d data ->
   universal_newlines (latin1_decode data) = latin1_decode data /\
   List.length (universal_newlines (latin1_decode data)) = List.length data).
Proof.
  intros Hu Hrun Hre He Hc Hr Hr' Hd.
  assert (Hs : is_sink parts name = false) by apply Hre.
  assert (Hl : str_eqb name package_lock = false)
    by now apply eligible_split in He.
  assert (Hopen : forall s enc,
             open_read visible s parts name f enc = ReadOk data).
  { intros s enc. unfold open_read. rewrite Hs. now destruct enc. }
  repeat split.
  - rewrite (run_blocks_for visible slot cwd cwd1 st parts name f Hu Hrun Hre).
    rewrite He, Hc. unfold decoded. now rewrite !Hopen, Hd.
  - apply (run_trace_In visible slot cwd cwd1 st parts name f); try assumption.
    intros s Hrs Hss.
    rewrite (process_file_latin1 visible _ _ _ _ data data Hrs Hss He
               (Hopen s utf_8) Hd (Hopen s latin_1) Hc).
    cbn. apply in_or_app. right. now left.
  - rewrite <- (length_map Byte.to_N data).
    apply universal_newlines_shorter.
  - apply universal_newlines_no_cr. now apply latin1_no_cr.
  - rewrite universal_newlines_no_cr by now apply latin1_no_cr.
    apply length_map.
Qed.

(** C8 (the code departs from it). No failure on a single file should end
    the run. [Path.exists()], line 29, is called outside the [try] of
    line 40: for the entry a.txt of a directory that may be listed but not
    searched it raises, and the run ends there although the sink was
    opened. Once the sink is open, the run fails exactly when
    [Path.exists()] raises for an entry that the walk reaches and that is
    not package-lock.json. The other failures are contained as the claim
    says: in a run that returns, an entry that is not there any more is
    never opened and gets no block. *)
Theorem path_exists_error_ends_run
        (visible : list str -> bytes) (slot : list str -> nat) :
  (exists d, open_sink slot unsearchable_tree = Some d) /\
  generate_arcade_project_files visible slot unsearchable_tree = None /\
  (forall cwd d,
      open_sink slot cwd = Some d ->
      (generate_arcade_project_files visible slot cwd = None <->
       exists parts name f,
         reached cwd parts name f /\ name <> package_lock /\
         f_stat_raises f = true)) /\
  (forall cwd cwd1 st parts name f,
      unique_names cwd ->
      generate_arcade_project_files visible slot cwd = Some (cwd1, st) ->
      reached cwd parts name f ->
      f_exists f = false ->
      (forall enc, ~ In (EvOpen parts name enc) (trace st)) /\
      filter (block_for parts name) (emitted st) = []).
Proof.
  assert (Ho : exists d, open_sink slot unsearchable_tree = Some d).
  { unfold unsearchable_tree, open_sink. cbn [has_name existsb fst].
    change (str_eqb (lit "locked") output_file) with false.
    change (str_eqb (lit "z.txt") output_file) with false.
    cbn [orb]. eexists. reflexivity. }
  split; [exact Ho|]. split; [|split].
  - destruct Ho as [d Ho]. apply (run_fails visible slot _ d Ho).
    exists [lit "locked"], (lit "a.txt"),
      (mkFile false (ReadError (lit "Permission denied"))
              (ReadError (lit "Permission denied")) true).
    split; [|split; [discriminate | reflexivity]].
    split; [|split; reflexivity].
    apply (file_below _ _ (lit "locked")
             (Dir [(lit "a.txt",
                    mkFile false (ReadError (lit "Permission denied"))
                           (ReadError (lit "Permission denied")) true)] [])).
    + now left.
    + constructor. now left.
  - intros cwd d. apply run_fails.
  - intros cwd cwd1 st parts name f Hu Hrun Hre Hx.
    assert (Hs : is_sink parts name = false) by apply Hre.
    assert (He : eligible parts name f = false).
    { unfold eligible, path_exists. rewrite Hs, Hx.
      now rewrite andb_false_r. }
    split.
    + intros enc Hin.
      destruct (run_returns visible slot _ _ _ Hrun)
        as (d & Ho' & _ & _ & ->).
      cbn [emit trace] in Hin. apply in_app_or in Hin as [Hin|Hin].
      * rewrite walk_visited in Hin.
        apply loop_opens in Hin as [[]|[g [Hg Heg]]].
        assert (E : (parts, (name, g)) = (parts, (name, f))).
        { apply (NoDup_map_same entry_path (visited [] d)).
          - apply visited_NoDup. now apply (open_sink_unique slot cwd).
          - assumption.
          - now apply (run_reached slot cwd).
          - reflexivity. }
        inversion E; subst. congruence.
      * apply in_map_iff in Hin as [x [Hx' _]]. discriminate.
    + rewrite (run_blocks_for visible slot cwd cwd1 st parts name f
                 Hu Hrun Hre).
      now rewrite He.
Qed.

(** C9. The counter that the summary reports is the number of blocks in
    the output document: the write calls of the run split into whole
    blocks, as many as the counter says, the output file holds their text,
    and the summary printed with that number ends the trace. *)
Theorem count_equals_blocks
        (visible : list str -> bytes) (slot : list str -> nat)
        (cwd cwd1 : dir) (st : state) :
  generate_arcade_project_files visible slot cwd = Some (cwd1, st) ->
  exists bs tr,
    parse_blocks (written (trace st)) = Some bs /\
    file_count st = List.length bs /\
    output_of cwd1 =
      Some (regular (utf8_encode (List.concat (written (trace st))))) /\
    trace st = tr ++ map EvPrint (summary (List.length bs)) /\
    In (check_box :: lit " Total files processed: "
          ++ str_of_nat (List.length bs))
       (summary (List.length bs)).
Proof.
  intros Hrun.
  destruct (run_state _ _ _ _ _ Hrun) as (Hw & Hc & _ & Hout & tr & Htr).
  exists (map (fun b => (block_header b, b_content b)) (emitted st)), tr.
  rewrite length_map, <- Hc. repeat split; try assumption.
  - rewrite Hw. apply parse_blocks_emitted.
  - right. left. reflexivity.
Qed.

(** C10. The trace of a run reads well from start to end: the four write
    calls of each block come right after the opening (and reading) of the
    file named in its header, no file is opened and no line is printed
    inside a block, and the run ends between blocks. So the document is the
    concatenation of the texts of whole blocks. A step whose reads yield no
    text (a read error, or a failed decoding whose retry fails) writes
    nothing. *)
Theorem output_is_whole_blocks
        (visible : list str -> bytes) (slot : list str -> nat)
        (cwd cwd1 : dir) (st : state) :
  generate_arcade_project_files visible slot cwd = Some (cwd1, st) ->
  follow idle (trace st) = Some idle /\
  written (trace st) = flat_map block_writes (emitted st) /\
  List.concat (written (trace st)) = flat_map block_text (emitted st) /\
  (forall parts s name f,
      decoded visible s parts name f = None ->
      written (trace (process_file visible parts s (name, f))) =
      written (trace s)).
Proof.
  intros Hrun.
  destruct (run_state _ _ _ _ _ Hrun) as (Hw & _ & Hb & _).
  repeat split; try assumption.
  - rewrite Hw. apply concat_block_writes.
  - intros parts s name f Hd.
    destruct (process_file_grows visible parts s (name, f))
      as (seg & bs & Ht & He & _ & Hws & _).
    rewrite process_file_emitted, Hd in He.
    assert (Hbs : bs = []).
    { destruct (_ && _ && _)%bool; rewrite app_nil_r in He;
        rewrite <- (app_nil_r (emitted s)) in He at 1;
        now apply app_inv_head in He. }
    subst bs. now rewrite Ht, written_app, Hws, app_nil_r.
Qed.

(** * The claims on concrete projects *)

Ltac distinct_names :=
  repeat (constructor; [cbn; intuition discriminate|]); constructor.

Lemma sample_tree_unique : unique_names sample_tree.
Proof.
  cbn. repeat split; distinct_names.
Defined.

Lemma crlf_tree_unique : unique_names crlf_tree.
Proof.
  cbn. repeat split; distinct_names.
Defined.

Lemma latin1_crlf_tree_unique : unique_names latin1_crlf_tree.
Proof.
  cbn. repeat split; distinct_names.
Defined.


Lemma reached_here (files : list (str * file)) (dirs : list (str * dir))
      (name : str) (f : file) :
  In (name, f) files -> str_eqb name output_file = false ->
  reached (Dir files dirs) [] name f.
Proof.
  intros Hin Hs. split; [now constructor | split; [exact Hs | reflexivity]].
Defined.

Ltac in_tree :=
  apply reached_here; [cbn; tauto | reflexivity].

(** A run that returns gives what [run_of] says. *)
Lemma returns_run_of (visible : list str -> bytes) (slot : list str -> nat)
      (cwd : dir) :
  returns visible slot cwd = true ->
  generate_arcade_project_files visible slot cwd =
  Some (fst (run_of visible slot cwd), snd (run_of visible slot cwd)).
Proof.
  unfold returns, run_of.
  destruct (generate_arcade_project_files visible slot cwd) as [[d st]|];
    [reflexivity | discriminate].
Qed.

Ltac run_returns := apply returns_run_of; vm_compute; reflexivity.

Lemma sample_run :
  generate_arcade_project_files unflushed listed_last sample_tree =
  Some (fst (run_of unflushed listed_last sample_tree),
        snd (run_of unflushed listed_last sample_tree)).
Proof. run_returns. Qed.

Lemma crlf_run :
  generate_arcade_project_files unflushed listed_last crlf_tree =
  Some (fst (run_of unflushed listed_last crlf_tree),
        snd (run_of unflushed listed_last crlf_tree)).
Proof. run_returns. Qed.

Lemma latin1_crlf_run :
  generate_arcade_project_files unflushed listed_last latin1_crlf_tree =
  Some (fst (run_of unflushed listed_last latin1_crlf_tree),
        snd (run_of unflushed listed_last latin1_crlf_tree)).
Proof. run_returns. Qed.


(** C2 on the sample project. *)
Lemma second_run_same_output_witness :
  exists cwd1 st1,
    generate_arcade_project_files unflushed listed_last sample_tree
    = Some (cwd1, st1) /\
    generate_arcade_project_files unflushed listed_last cwd1
    = Some (cwd1, st1).
Proof.
  do 2 eexists. split; [exact sample_run|].
  destruct (second_run_same_output unflushed listed_last sample_tree _ _
              sample_run) as (cwd2 & st2 & H & _ & _ & E1 & E2).
  rewrite E1, E2 in H. exact H.
Defined.

(** C4 on the sample project: c.js of node_modules and the lock file are in
    the tree, and no block comes from them. *)
Lemma no_block_under_node_modules_witness :
  exists cwd1 st,
    generate_arcade_project_files unflushed listed_last sample_tree
    = Some (cwd1, st) /\
    Forall (fun b => ~ In node_modules (b_parts b)
                     /\ b_name b <> package_lock) (emitted st).
Proof.
  do 2 eexists. split; [exact sample_run|].
  apply (no_block_under_node_modules unflushed listed_last sample_tree _ _
           sample_run).
Defined.

(** C5 as first stated fails: the file a CR LF b is UTF-8 text, and its
    block does not hold that text as it is. *)
Lemma verbatim_content_counterexample :
  ~ (forall (visible : list str -> bytes) (slot : list str -> nat)
            (cwd cwd1 : dir) (st : state) (parts : list str) (name : str)
            (f : file) (data : bytes) (text : str),
        unique_names cwd ->
        generate_arcade_project_files visible slot cwd = Some (cwd1, st) ->
        reached cwd parts name f ->
        eligible parts name f = true ->
        f_read f = ReadOk data ->
        utf8_decode data = Some text ->
        filter (block_for parts name) (emitted st) =
        [mkBlock parts name text]).
Proof.
  intros H.
  specialize (H unflushed listed_last crlf_tree _ _ [] (lit "a.txt")
                (regular [Byte.x61; Byte.x0d; Byte.x0a; Byte.x62]) _ _
                crlf_tree_unique crlf_run
                ltac:(in_tree)
                eq_refl eq_refl eq_refl).
  vm_compute in H. discriminate H.
Qed.

(** C5 on the sample project: a.txt with content hello gives the block of
    the first scenario. *)
Lemma text_file_block_witness :
  exists cwd1 st,
    generate_arcade_project_files unflushed listed_last sample_tree
    = Some (cwd1, st) /\
    filter (block_for [] (lit "a.txt")) (emitted st) =
      [mkBlock [] (lit "a.txt") (lit "hello")] /\
    block_text (mkBlock [] (lit "a.txt") (lit "hello")) =
      lit "My a.txt:"
      ++ [newline; newline; dquote; newline] ++ lit "hello"
      ++ [newline; dquote; newline; newline].
Proof.
  do 2 eexists. split; [exact sample_run|].
  destruct (text_file_block unflushed listed_last sample_tree _ _
              [] (lit "a.txt") (regular (ascii_bytes "hello")) _ _
              sample_tree_unique sample_run
              ltac:(in_tree)
              eq_refl eq_refl eq_refl eq_refl) as (H1 & _ & H3 & _).
  split; [exact H1 | exact H3].
Defined.



(** C7 as first stated fails: the file FF CR LF is not UTF-8, and its block
    holds two characters, not the three of the Latin-1 decoding. *)
Lemma latin1_byte_count_counterexample :
  ~ (forall (visible : list str -> bytes) (slot : list str -> nat)
            (cwd cwd1 : dir) (st : state) (parts : list str) (name : str)
            (f : file) (data : bytes),
        unique_names cwd ->
        generate_arcade_project_files visible slot cwd = Some (cwd1, st) ->
        reached cwd parts name f ->
        eligible parts name f = true ->
        f_read f = ReadOk data ->
        f_reread f = ReadOk data ->
        utf8_decode data = None ->
        exists c,
          filter (block_for parts name) (emitted st) = [mkBlock parts name c]
          /\ c = latin1_decode data
          /\ List.length c = List.length data).
Proof.
  intros H.
  destruct (H unflushed listed_last latin1_crlf_tree _ _ [] (lit "a.txt")
              (regular [Byte.xff; Byte.x0d; Byte.x0a]) _
              latin1_crlf_tree_unique latin1_crlf_run
              ltac:(in_tree)
              eq_refl eq_refl eq_refl eq_refl) as (c & Hc & _ & Hlen).
  vm_compute in Hc. inversion Hc; subst. discriminate Hlen.
Qed.

(** C7 on the sample project: notes.dat, the bytes FF 41, is emitted
    through the Latin-1 retry with one character per byte. *)
Lemma latin1_fallback_block_witness :
  exists cwd1 st,
    generate_arcade_project_files unflushed listed_last sample_tree
    = Some (cwd1, st) /\
    filter (block_for [] (lit "notes.dat")) (emitted st) =
      [mkBlock [] (lit "notes.dat")
         (universal_newlines (latin1_decode [Byte.xff; Byte.x41]))] /\
    In (EvPrint (check_mark :: lit " Added (latin-1): notes.dat")) (trace st)
    /\ List.length (universal_newlines (latin1_decode [Byte.xff; Byte.x41]))
       = 2%nat.
Proof.
  do 2 eexists. split; [exact sample_run|].
  destruct (latin1_fallback_block unflushed listed_last sample_tree _ _
              [] (lit "notes.dat") (regular [Byte.xff; Byte.x41]) _
              sample_tree_unique sample_run
              ltac:(in_tree)
              eq_refl eq_refl eq_refl eq_refl eq_refl)
    as (H1 & H2 & _ & H4).
  split; [exact H1 | split; [exact H2|]].
  apply H4. cbn. intuition discriminate.
Defined.

(** C9 on the sample project: four blocks (a.txt, notes.dat, the output
    file itself and src/b.js) and a counter of four. *)
Lemma count_equals_blocks_witness :
  exists cwd1 st bs,
    generate_arcade_project_files unflushed listed_last sample_tree
    = Some (cwd1, st) /\
    parse_blocks (written (trace st)) = Some bs /\
    file_count st = List.length bs /\
    file_count st = 4%nat /\
    In (EvPrint (check_box :: lit " Total files processed: 4")) (trace st).
Proof.
  destruct (count_equals_blocks unflushed listed_last sample_tree _ _
              sample_run) as (bs & tr & Hp & Hc & _).
  do 2 eexists. exists bs. split; [exact sample_run|].
  split; [exact Hp | split; [exact Hc | split]].
  - vm_compute. reflexivity.
  - vm_compute. tauto.
Defined.

(** C10 on the sample project. *)
Lemma output_is_whole_blocks_witness :
  exists cwd1 st,
    generate_arcade_project_files unflushed listed_last sample_tree
    = Some (cwd1, st) /\
    follow idle (trace st) = Some idle /\
    List.concat (written (trace st)) = flat_map block_text (emitted st).
Proof.
  do 2 eexists. split; [exact sample_run|].
  destruct (output_is_whole_blocks unflushed listed_last sample_tree _ _
              sample_run) as (H1 & _ & H3 & _).
  split; [exact H1 | exact H3].
Defined.

(** * Further properties of the collector *)


(** ** The order of the blocks *)

Lemma inputs_of_set_entry (v : file) (l : list (str * file)) :
  inputs_of (set_entry output_file v l) = inputs_of l.
Proof.
  unfold inputs_of. induction l as [|[m w] l IH]; [reflexivity|].
  cbn [set_entry]. destruct (str_eqb m output_file) eqn:E.
  - cbn [filter fst]. now rewrite E.
  - cbn [filter fst]. rewrite E. cbn [negb]. now f_equal.
Qed.

Lemma inputs_of_insert (i : nat) (v : file) (l : list (str * file)) :
  inputs_of (insert_at i (output_file, v) l) = inputs_of l.
Proof.
  unfold inputs_of, insert_at. rewrite filter_app. cbn [filter fst].
  rewrite str_eqb_refl. cbn [negb].
  now rewrite <- filter_app, firstn_skipn.
Qed.

(** Among the entries of the working directory, the output file is not
    one that [gets_block] keeps. *)
Lemma gets_block_inputs (l : list (str * file)) :
  filter gets_block (map (pair []) l) =
  filter gets_block (map (pair []) (inputs_of l)).
Proof.
  unfold inputs_of. induction l as [|[m w] l IH]; [reflexivity|].
  cbn [map filter fst].
  destruct (str_eqb m output_file) eqn:E; cbn [negb map filter].
  - unfold gets_block at 1. cbn [fst snd is_sink]. rewrite E.
    cbn [negb andb]. exact IH.
  - destruct (gets_block ([], (m, w))); [f_equal|]; exact IH.
Qed.

(** Opening the sink does not change which input files get a block, nor
    their order. *)
Lemma open_sink_gets_block (slot : list str -> nat) (cwd d : dir) :
  open_sink slot cwd = Some d ->
  filter gets_block (visited [] d) = filter gets_block (visited [] cwd).
Proof.
  destruct cwd as [files dirs]. cbn [open_sink].
  destruct (has_name output_file dirs); [discriminate|].
  destruct (has_name output_file files); intros H; inversion H; subst;
    rewrite !visited_unfold, !filter_app; f_equal;
    change (str_in node_modules (walk_root [])) with false; cbn iota;
    rewrite gets_block_inputs, (gets_block_inputs files).
  - now rewrite inputs_of_set_entry.
  - now rewrite inputs_of_insert.
Qed.

Lemma from_input_sink (c : str) :
  from_input (mkBlock [] output_file c) = false.
Proof.
  unfold from_input. now rewrite block_for_same.
Qed.

Lemma is_sink_place (parts : list str) (name : str) :
  is_sink parts name = true <-> (parts, name) = ([], output_file).
Proof.
  destruct parts as [|p parts]; cbn [is_sink].
  - rewrite str_eqb_eq. split; [now intros -> | intros E; now inversion E].
  - split; discriminate.
Qed.

Lemma from_input_other (parts : list str) (name c : str) :
  is_sink parts name = false -> from_input (mkBlock parts name c) = true.
Proof.
  intros H. unfold from_input. rewrite block_for_other; [reflexivity|].
  intros E. apply is_sink_place in E. congruence.
Qed.

Section OrderFacts.

Variable visible : list str -> bytes.

(** Whether the reads of an input file end with a text does not depend
    on the state. *)
Lemma decoded_yields_text (s : state) (parts : list str) (name : str)
      (f : file) :
  is_sink parts name = false ->
  match decoded visible s parts name f with
  | Some _ => true
  | None => false
  end = yields_text f.
Proof.
  intros Hs. unfold decoded, yields_text, open_read. rewrite Hs.
  destruct (f_read f) as [data|msg]; [|reflexivity].
  destruct (utf8_decode data); [reflexivity|].
  now destruct (f_reread f).
Qed.

(** The read of the sink always ends with a text. *)
Lemma decoded_sink (s : state) (f : file) :
  exists c, decoded visible s [] output_file f = Some c.
Proof.
  unfold decoded, open_read. change (is_sink [] output_file) with true.
  cbn iota.
  destruct (utf8_decode (on_disk visible (written (trace s))));
    eexists; reflexivity.
Qed.

Lemma step_places (s : state) (e : list str * (str * file)) :
  raised (body visible s e) = false ->
  map block_place (filter from_input (emitted (body visible s e))) =
  map block_place (filter from_input (emitted s))
  ++ (if gets_block e then [entry_path e] else []).
Proof.
  destruct e as [parts [name f]]. unfold body, gets_block, entry_path.
  cbn [fst snd]. intros Hr.
  rewrite process_file_emitted, Hr, filter_app, map_app. f_equal.
  cbn [negb andb].
  destruct (is_sink parts name) eqn:Hs; cbn [negb andb].
  - apply is_sink_place in Hs. inversion Hs; subst.
    destruct (_ && _)%bool; [|reflexivity].
    destruct (decoded_sink s f) as [c ->]. cbn [filter].
    now rewrite from_input_sink.
  - rewrite <- (decoded_yields_text s parts name f Hs).
    destruct (eligible parts name f); [|reflexivity]. cbn [andb].
    destruct (encodable (rel_path parts name));
      [|rewrite andb_false_r; reflexivity].
    rewrite andb_true_r.
    destruct (decoded visible s parts name f) as [c|]; [|reflexivity].
    cbn [filter]. now rewrite (from_input_other _ _ _ Hs).
Qed.

Lemma loop_places (l : list (list str * (str * file))) :
  forall st,
    raised (fold_left (body visible) l st) = false ->
    map block_place
      (filter from_input (emitted (fold_left (body visible) l st))) =
    map block_place (filter from_input (emitted st))
    ++ map entry_path (filter gets_block l).
Proof.
  induction l as [|e l IH]; intros st Hr; cbn [fold_left filter].
  - cbn [map]. now rewrite app_nil_r.
  - assert (He : raised (body visible st e) = false)
      by apply (loop_clean visible [] l e st Hr).
    cbn [fold_left] in Hr.
    rewrite (IH _ Hr), (step_places _ _ He), <- app_assoc. f_equal.
    now destruct (gets_block e).
Qed.

End OrderFacts.

(** X1. The blocks of the input files stand in the order of the walk: in
    a run that returns they come, one each and in this order, from the
    entries of the working directory that the walk visits, that are not
    the output file, that pass the three tests, whose reads end with a
    text and whose path the sink can encode. *)
Theorem blocks_in_walk_order
        (visible : list str -> bytes) (slot : list str -> nat)
        (cwd cwd1 : dir) (st : state) :
  generate_arcade_project_files visible slot cwd = Some (cwd1, st) ->
  map block_place (filter from_input (emitted st)) =
  map entry_path (filter gets_block (visited [] cwd)).
Proof.
  intros Hrun.
  destruct (run_returns visible slot _ _ _ Hrun) as (d & Ho & Hr & _ & ->).
  cbn [emit emitted]. rewrite walk_visited in *.
  rewrite (loop_places visible _ _ Hr).
  now rewrite (open_sink_gets_block slot cwd d Ho).
Qed.

(** ** Carriage returns *)

Lemma universal_newlines_drops_cr (n : nat) :
  forall t, (List.length t <= n)%nat ->
            ~ In carriage_return (universal_newlines t).
Proof.
  induction n as [|n IH]; intros t Hn.
  - destruct t; [intros [] | cbn in Hn; lia].
  - destruct t as [|c t]; [intros []|].
    cbn [universal_newlines]. cbn [List.length] in Hn.
    destruct (c =? carriage_return) eqn:Ec.
    + destruct t as [|d t]; [cbn; intuition discriminate|].
      cbn [List.length] in Hn.
      destruct (d =? newline); intros [H|H]; try discriminate.
      * revert H. apply IH. lia.
      * revert H. apply IH. cbn [List.length]. lia.
    + intros [H|H].
      * subst c. now rewrite N.eqb_refl in Ec.
      * revert H. apply IH. lia.
Qed.

Lemma universal_newlines_without_cr (t : str) :
  ~ In carriage_return (universal_newlines t).
Proof. now apply (universal_newlines_drops_cr (List.length t)). Qed.

(** X4. No block of a run has a carriage return in its content, whatever
    the bytes of the files: text-mode reading hands every CR LF and every
    lone CR over as LF, on the UTF-8 path and on the Latin-1 path. *)
Theorem no_carriage_return_in_content
        (visible : list str -> bytes) (slot : list str -> nat)
        (cwd cwd1 : dir) (st : state) :
  generate_arcade_project_files visible slot cwd = Some (cwd1, st) ->
  Forall (fun b => ~ In carriage_return (b_content b)) (emitted st).
Proof.
  intros Hrun.
  destruct (run_returns visible slot _ _ _ Hrun) as (d & _ & _ & _ & ->).
  cbn [emit emitted]. rewrite walk_visited.
  apply (loop_invariant visible
           (fun s => Forall (fun b => ~ In carriage_return (b_content b))
                            (emitted s))); [|constructor].
  intros parts name f s s' _ Hout Hs.
  destruct Hout; cbn [py_print emit write_block raise_uncaught emitted];
    try assumption;
    apply Forall_app; (split; [assumption|]);
    constructor; try constructor; cbn [b_content];
    apply universal_newlines_without_cr.
Qed.

(** ** The files the run opens *)

(** X6. A run opens for reading only what it is about to emit or report:
    every file it opens is the output file itself or an entry of the tree
    that exists, lies in no directory whose root string mentions
    node_modules (so below no node_modules directory), is not
    package-lock.json and has none of the six binary suffixes. *)
Theorem opens_only_eligible_files
        (visible : list str -> bytes) (slot : list str -> nat)
        (cwd cwd1 : dir) (st : state) :
  generate_arcade_project_files visible slot cwd = Some (cwd1, st) ->
  forall parts name enc,
    In (EvOpen parts name enc) (trace st) ->
    str_in node_modules (walk_root parts) = false /\
    ~ In node_modules parts /\
    name <> package_lock /\
    binary_excluded name = false /\
    (is_sink parts name = true \/
     exists f, file_at cwd parts name f /\ f_exists f = true).
Proof.
  intros Hrun parts name enc Hin.
  destruct (run_returns visible slot _ _ _ Hrun) as (d & Ho & _ & _ & ->).
  cbn [emit trace] in Hin. apply in_app_or in Hin as [Hin|Hin].
  2:{ apply in_map_iff in Hin as [x [Hx _]]. discriminate. }
  rewrite walk_visited in Hin.
  apply loop_opens in Hin as [[]|[f [Hf He]]].
  assert (Hroot := visited_root d [] parts (name, f) Hf).
  apply eligible_split in He as (Hl & Hx & Hb).
  split; [exact Hroot|]. split; [|split; [|split; [exact Hb|]]].
  - intros Hnm. now rewrite (str_in_walk_root_part _ _ Hnm) in Hroot.
  - now apply str_eqb_neq.
  - destruct (visited_file_at d [] parts name f Hf) as (q & Hq & Hat).
    cbn [app] in Hq. subst q.
    destruct (open_sink_file_at_inv slot cwd d parts name f Ho Hat)
      as [Hs|Hcwd]; [now left|].
    destruct (is_sink parts name) eqn:Hs; [now left|].
    right. exists f. split; [assumption|].
    unfold path_exists in Hx. now rewrite Hs in Hx.
Qed.

Section RetryFacts.

Variable visible : list str -> bytes.

(** The Latin-1 opening of a file comes from a step whose first read gave
    bytes that are not UTF-8, and that opened the file as UTF-8 before. *)
Lemma loop_retries (p : list str) (n : str)
      (l : list (list str * (str * file))) (st : state) :
  In (EvOpen p n latin_1) (trace (fold_left (body visible) l st)) ->
  In (EvOpen p n latin_1) (trace st) \/
  (In (EvOpen p n utf_8) (trace (fold_left (body visible) l st)) /\
   exists f, In (p, (n, f)) l /\
     (is_sink p n = true \/
      exists data, f_read f = ReadOk data /\ utf8_decode data = None)).
Proof.
  apply (loop_invariant visible
    (fun s => In (EvOpen p n latin_1) (trace s) ->
       In (EvOpen p n latin_1) (trace st) \/
       (In (EvOpen p n utf_8) (trace s) /\
        exists f, In (p, (n, f)) l /\
          (is_sink p n = true \/
           exists data, f_read f = ReadOk data /\ utf8_decode data = None))));
    [|now left].
  intros parts name f s s' Hl Hout Hs Hin.
  assert (Hnew : forall data,
    open_read visible s parts name f utf_8 = ReadOk data ->
    utf8_decode data = None ->
    is_sink parts name = true \/
    exists data, f_read f = ReadOk data /\ utf8_decode data = None).
  { intros data Hr Hd. unfold open_read in Hr.
    destruct (is_sink parts name); [now left|]. right. now exists data. }
  assert (Hold : In (EvOpen p n latin_1) (trace s) ->
    In (EvOpen p n latin_1) (trace st) \/
    (In (EvOpen p n utf_8) (trace s') /\
     exists f, In (p, (n, f)) l /\
       (is_sink p n = true \/
        exists data, f_read f = ReadOk data /\ utf8_decode data = None))).
  { intros Hin'. destruct (Hs Hin') as [H|[H1 H2]]; [now left|]. right.
    split; [|assumption].
    destruct (process_file_grows visible parts s (name, f))
      as (seg & _ & Ht & _).
    destruct Hout; cbn [py_print emit write_block raise_uncaught trace];
      rewrite ?in_app_iff; auto 6. }
  destruct Hout as [Hr | Hr Hl' Hss | He Hp | He Hl' Hx Hb | msg He Ho
                    | data text He Ho Hd Hc | data text He Ho Hd Hc
                    | data data' He Ho Hd Ho' Hc | data He Ho Hd Hc];
    cbn [py_print emit write_block raise_uncaught trace] in *;
    rewrite ?in_app_iff in Hin; cbn [In] in Hin;
    try (now apply Hold).
  - destruct Hin as [Hin|[Hin|[]]]; [now apply Hold | discriminate].
  - destruct Hin as [[Hin|[Hin|[]]]|[Hin|[]]]; try discriminate.
    now apply Hold.
  - destruct Hin as [[[Hin|[Hin|[]]]|Hin]|[Hin|[]]]; try discriminate.
    + now apply Hold.
    + apply in_map_iff in Hin as [x [Hx _]]. discriminate.
  - destruct Hin as [[Hin|[Hin|[]]]|[Hin|[]]]; try discriminate.
    now apply Hold.
  - destruct Hin as [[[Hin|[Hin|[Hin|[]]]]|Hin]|[Hin|[]]];
      try discriminate.
    + now apply Hold.
    + inversion Hin; subst. right. split.
      * rewrite !in_app_iff. cbn [In]. auto 6.
      * exists f. split; [assumption | now apply (Hnew data)].
    + apply in_map_iff in Hin as [x [Hx _]]. discriminate.
  - destruct Hin as [[Hin|[Hin|[Hin|[]]]]|[Hin|[]]]; try discriminate.
    + now apply Hold.
    + inversion Hin; subst. right. split.
      * rewrite !in_app_iff. cbn [In]. auto 6.
      * exists f. split; [assumption | now apply (Hnew data)].
Qed.

End RetryFacts.

(** X7. The Latin-1 retry is made only for a file whose bytes are not
    UTF-8: every file a run opens as Latin-1 was opened as UTF-8 in the
    same run, and is the output file itself or an entry of the tree whose
    first read gave bytes that the strict UTF-8 decoder refuses. A file
    that is UTF-8 text is opened once. *)
Theorem latin1_only_after_utf8_failure
        (visible : list str -> bytes) (slot : list str -> nat)
        (cwd cwd1 : dir) (st : state) :
  generate_arcade_project_files visible slot cwd = Some (cwd1, st) ->
  forall parts name,
    In (EvOpen parts name latin_1) (trace st) ->
    In (EvOpen parts name utf_8) (trace st) /\
    (is_sink parts name = true \/
     exists f data,
       file_at cwd parts name f /\
       f_read f = ReadOk data /\ utf8_decode data = None).
Proof.
  intros Hrun parts name Hin.
  destruct (run_returns visible slot _ _ _ Hrun) as (d & Ho & _ & _ & ->).
  cbn [emit trace] in *. apply in_app_or in Hin as [Hin|Hin].
  2:{ apply in_map_iff in Hin as [x [Hx _]]. discriminate. }
  rewrite walk_visited in *.
  apply loop_retries in Hin as [[]|(Hu & f & Hf & Hcase)].
  split; [apply in_or_app; now left|].
  destruct (is_sink parts name) eqn:Hs; [now left|].
  destruct Hcase as [Hc|(data & Hr & Hd)]; [discriminate|].
  right. exists f, data.
  destruct (visited_file_at d [] parts name f Hf) as (q & Hq & Hat).
  cbn [app] in Hq. subst q.
  destruct (open_sink_file_at_inv slot cwd d parts name f Ho Hat)
    as [Hs'|Hcwd]; [congruence|]. now repeat split.
Qed.

(** ** Files that cannot be read *)

(** X8. An eligible file that the walk reaches and that cannot be opened
    or read at the first attempt is reported with the message of the error,
    'Error reading <path>: <message>', and gets no block; the Latin-1 retry
    is not made for it. *)
Theorem read_error_is_reported
        (visible : list str -> bytes) (slot : list str -> nat)
        (cwd cwd1 : dir) (st : state)
        (parts : list str) (name : str) (f : file) (msg : str) :
  unique_names cwd ->
  generate_arcade_project_files visible slot cwd = Some (cwd1, st) ->
  reached cwd parts name f ->
  eligible parts name f = true ->
  f_read f = ReadError msg ->
  In (EvPrint (lit "Error reading " ++ rel_path parts name
               ++ lit ": " ++ msg)) (trace st) /\
  filter (block_for parts name) (emitted st) = [] /\
  ~ In (EvOpen parts name latin_1) (trace st).
Proof.
  intros Hu Hrun Hre He Hr.
  assert (Hs : is_sink parts name = false) by apply Hre.
  assert (Hl : str_eqb name package_lock = false)
    by now apply eligible_split in He.
  assert (Hopen : forall s,
             open_read visible s parts name f utf_8 = ReadError msg).
  { intros s. unfold open_read. now rewrite Hs. }
  split; [|split].
  - apply (run_trace_In visible slot cwd cwd1 st parts name f); try assumption.
    intros s Hrs Hss.
    rewrite (process_file_error visible _ _ _ _ _ Hrs Hss He (Hopen s)).
    cbn. apply in_or_app. right. now left.
  - rewrite (run_blocks_for visible slot cwd cwd1 st parts name f Hu Hrun Hre).
    rewrite He. unfold decoded. rewrite Hopen.
    now destruct (encodable (rel_path parts name)).
  - intros Hin.
    destruct (run_returns visible slot _ _ _ Hrun) as (d & Ho & _ & _ & ->).
    cbn [emit trace] in Hin. apply in_app_or in Hin as [Hin|Hin].
    2:{ apply in_map_iff in Hin as [x [Hx _]]. discriminate. }
    rewrite walk_visited in Hin.
    apply loop_retries in Hin as [[]|(_ & g & Hg & Hcase)].
    assert (E : (parts, (name, g)) = (parts, (name, f))).
    { apply (NoDup_map_same entry_path (visited [] d)).
      - apply visited_NoDup. now apply (open_sink_unique slot cwd).
      - assumption.
      - now apply (run_reached slot cwd).
      - reflexivity. }
    inversion E; subst g.
    destruct Hcase as [Hc|(data & Hr' & _)]; congruence.
Qed.

(** X9. An eligible file that the walk reaches, whose bytes are not UTF-8
    and that cannot be read again at the retry is reported as 'Skipping
    unreadable file: <path>' and gets no block; the message of the second
    error is not shown. *)
Theorem retry_failure_is_reported
        (visible : list str -> bytes) (slot : list str -> nat)
        (cwd cwd1 : dir) (st : state)
        (parts : list str) (name : str) (f : file) (data : bytes)
        (msg : str) :
  unique_names cwd ->
  generate_arcade_project_files visible slot cwd = Some (cwd1, st) ->
  reached cwd parts name f ->
  eligible parts name f = true ->
  f_read f = ReadOk data ->
  utf8_decode data = None ->
  f_reread f = ReadError msg ->
  In (EvPrint (lit "Skipping unreadable file: " ++ rel_path parts name))
     (trace st) /\
  In (EvOpen parts name latin_1) (trace st) /\
  filter (block_for parts name) (emitted st) = [].
Proof.
  intros Hu Hrun Hre He Hr Hd Hr'.
  assert (Hs : is_sink parts name = false) by apply Hre.
  assert (Hopen : forall s,
             open_read visible s parts name f utf_8 = ReadOk data).
  { intros s. unfold open_read. now rewrite Hs. }
  assert (Hopen' : forall s,
             open_read visible s parts name f latin_1 = ReadError msg).
  { intros s. unfold open_read. now rewrite Hs. }
  assert (Hl : str_eqb name package_lock = false)
    by now apply eligible_split in He.
  assert (Hstep : forall s,
    raised s = false -> stat_raises parts name f = false ->
    process_file visible parts s (name, f) =
    py_print (lit "Skipping unreadable file: " ++ rel_path parts name)
      (emit [EvOpen parts name utf_8; EvOpen parts name latin_1] s)).
  { intros s Hrs Hss.
    apply (process_file_unreadable visible _ _ _ _ data Hrs Hss He
             (Hopen s) Hd).
    right. exists msg. apply Hopen'. }
  split; [|split].
  - apply (run_trace_In visible slot cwd cwd1 st parts name f); try assumption.
    intros s Hrs Hss. rewrite (Hstep s Hrs Hss).
    cbn. apply in_or_app. right. now left.
  - apply (run_trace_In visible slot cwd cwd1 st parts name f); try assumption.
    intros s Hrs Hss. rewrite (Hstep s Hrs Hss).
    cbn. apply in_or_app. left. apply in_or_app. right. right. now left.
  - rewrite (run_blocks_for visible slot cwd cwd1 st parts name f Hu Hrun Hre).
    rewrite He. unfold decoded. rewrite Hopen, Hd, Hopen'.
    now destruct (encodable (rel_path parts name)).
Qed.

(** ** Paths the sink cannot encode *)


(** ** The extension rule on names *)

(** X10. The extension rule, read on the name: a name is excluded exactly
    when it is a non-empty stem followed by one of the six suffixes, in
    the same case. So a file whose whole name is one of the suffixes, such
    as the dot-file .pem, is not excluded. *)
Theorem excluded_names
        (name : str) :
  (binary_excluded name = true <->
   exists stem ext,
     stem <> [] /\ In ext binary_suffixes /\ name = stem ++ ext) /\
  (In name binary_suffixes -> binary_excluded name = false).
Proof.
  split; [apply binary_excluded_shape|].
  intros H. cbn in H.
  repeat (destruct H as [<-|H]; [reflexivity|]). destruct H.
Qed.

(** ** Relative paths *)

Lemma slash_free_cut (x y a b : str) :
  slash_free x -> slash_free y ->
  x ++ slash :: a = y ++ slash :: b -> x = y /\ a = b.
Proof.
  revert y. induction x as [|c x IH]; intros [|c' y] Hx Hy E;
    cbn [app] in E.
  - inversion E. now split.
  - inversion E; subst. exfalso. apply Hy. now left.
  - inversion E; subst. exfalso. apply Hx. now left.
  - inversion E; subst. destruct (IH y) as [-> ->]; try assumption.
    + intros H. apply Hx. now right.
    + intros H. apply Hy. now right.
    + now split.
Qed.

Lemma str_join_cons (x y : str) (l : list str) :
  str_join [slash] (x :: y :: l) = x ++ slash :: str_join [slash] (y :: l).
Proof. reflexivity. Qed.

Lemma str_join_slash_inj (l1 : list str) :
  forall l2,
    l1 <> [] -> l2 <> [] ->
    Forall slash_free l1 -> Forall slash_free l2 ->
    str_join [slash] l1 = str_join [slash] l2 -> l1 = l2.
Proof.
  induction l1 as [|x l1 IH]; intros l2 H1 H2 F1 F2 E; [congruence|].
  destruct l2 as [|y l2]; [congruence|].
  inversion F1 as [|? ? Hx F1']; subst. inversion F2 as [|? ? Hy F2']; subst.
  destruct l1 as [|x2 l1], l2 as [|y2 l2].
  - cbn in E. now subst.
  - rewrite str_join_cons in E. change (str_join [slash] [x]) with x in E.
    exfalso. apply Hx. rewrite E. apply in_or_app. right. now left.
  - rewrite str_join_cons in E. change (str_join [slash] [y]) with y in E.
    exfalso. apply Hy. rewrite <- E. apply in_or_app. right. now left.
  - rewrite !str_join_cons in E.
    destruct (slash_free_cut _ _ _ _ Hx Hy E) as [-> Hrest].
    f_equal. apply IH; try assumption; discriminate.
Qed.

(** X11. Two entries with the same relative path are the same entry, as
    long as no name holds the separator: distinct files never share a
    header line. *)
Theorem rel_path_names_one_entry
        (parts parts' : list str) (name name' : str) :
  Forall slash_free (parts ++ [name]) ->
  Forall slash_free (parts' ++ [name']) ->
  rel_path parts name = rel_path parts' name' ->
  parts = parts' /\ name = name'.
Proof.
  intros F F' E. unfold rel_path in E.
  apply str_join_slash_inj in E; try assumption.
  - now apply app_inj_tail in E.
  - now destruct parts.
  - now destruct parts'.
Qed.

(** ** The output file as UTF-8 *)

Lemma to_N_byte_of (n : N) : n < 256 -> Byte.to_N (byte_of n) = n.
Proof.
  intros H. unfold byte_of. destruct (Byte.of_N n) as [b|] eqn:E.
  - now apply Byte.to_of_N.
  - apply Byte.of_N_None_iff in E. lia.
Qed.

Lemma in_range_true (lo hi n : N) :
  lo <= n -> n <= hi -> in_range lo hi n = true.
Proof. intros H1 H2. apply in_range_spec. now split. Qed.

Lemma in_range_false (lo hi n : N) :
  n < lo \/ hi < n -> in_range lo hi n = false.
Proof.
  intros H. destruct (in_range lo hi n) eqn:E; [|reflexivity].
  apply in_range_spec in E. lia.
Qed.

(** The base-64 digits of a code point. *)
Lemma digits (c : N) :
  exists q1 r1 q2 r2 q3 r3,
    c = 64 * q1 + r1 /\ q1 = 64 * q2 + r2 /\ q2 = 64 * q3 + r3 /\
    r1 < 64 /\ r2 < 64 /\ r3 < 64 /\
    c / 64 = q1 /\ c mod 64 = r1 /\
    c / 4096 = q2 /\ (c / 64) mod 64 = r2 /\
    c / 262144 = q3 /\ (c / 4096) mod 64 = r3.
Proof.
  exists (c / 64), (c mod 64), (c / 64 / 64), ((c / 64) mod 64),
         (c / 64 / 64 / 64), ((c / 64 / 64) mod 64).
  assert (E2 : c / 4096 = c / 64 / 64)
    by (rewrite N.Div0.div_div; reflexivity).
  assert (E3 : c / 262144 = c / 64 / 64 / 64)
    by (rewrite !N.Div0.div_div; reflexivity).
  rewrite E2, E3.
  repeat split; try (apply N.div_mod; lia); try (apply N.mod_lt; lia).
Qed.

Lemma decode_encode_char (c : N) (rest : bytes) :
  scalar c = true ->
  utf8_decode (utf8_encode_char c ++ rest) =
  option_map (cons c) (utf8_decode rest).
Proof.
  intros Hs. unfold scalar in Hs.
  assert (Hc : c < 55296 \/ (57344 <= c /\ c <= 1114111)).
  { apply orb_true_iff in Hs as [H|H].
    - left. now apply N.ltb_lt.
    - right. apply andb_true_iff in H as [H1 H2].
      apply N.leb_le in H1. apply N.leb_le in H2. lia. }
  clear Hs.
  destruct (digits c) as (q1 & r1 & q2 & r2 & q3 & r3 & E1 & E2 & E3
                          & L1 & L2 & L3 & D1 & M1 & D2 & M2 & D3 & M3).
  unfold utf8_encode_char. rewrite M3, M2, D3, D2, M1, D1.
  destruct (c <? 128) eqn:C1.
  { apply N.ltb_lt in C1. cbn [app utf8_decode].
    rewrite to_N_byte_of by lia.
    assert (E : (c <? 128) = true) by now apply N.ltb_lt.
    now rewrite E. }
  apply N.ltb_ge in C1.
  destruct (c <? 2048) eqn:C2.
  { apply N.ltb_lt in C2. cbn [app utf8_decode].
    rewrite !to_N_byte_of by lia.
    assert (F1 : (192 + q1 <? 128) = false) by (apply N.ltb_ge; lia).
    rewrite F1, in_range_true by lia.
    unfold continuation. rewrite in_range_true by lia.
    do 2 f_equal. lia. }
  apply N.ltb_ge in C2.
  destruct (c <? 65536) eqn:C3.
  { apply N.ltb_lt in C3. cbn [app utf8_decode].
    rewrite !to_N_byte_of by lia.
    assert (F1 : (224 + q2 <? 128) = false) by (apply N.ltb_ge; lia).
    rewrite F1, (in_range_false 194 223) by lia.
    rewrite (in_range_true 224 239) by lia.
    unfold continuation. rewrite (in_range_true 128 191 (128 + r1)) by lia.
    rewrite in_range_true.
    - cbn [andb]. do 2 f_equal. lia.
    - destruct (224 + q2 =? 224) eqn:E; [|lia].
      apply N.eqb_eq in E. lia.
    - destruct (224 + q2 =? 237) eqn:E; [|lia].
      apply N.eqb_eq in E. lia. }
  apply N.ltb_ge in C3. cbn [app utf8_decode].
  rewrite !to_N_byte_of by lia.
  assert (F1 : (240 + q3 <? 128) = false) by (apply N.ltb_ge; lia).
  rewrite F1, (in_range_false 194 223), (in_range_false 224 239) by lia.
  rewrite (in_range_true 240 244) by lia.
  unfold continuation. rewrite (in_range_true 128 191 (128 + r1)) by lia.
  rewrite (in_range_true 128 191 (128 + r2)) by lia.
  rewrite in_range_true.
  - cbn [andb]. do 2 f_equal. lia.
  - destruct (240 + q3 =? 240) eqn:E; [|lia].
    apply N.eqb_eq in E. lia.
  - destruct (240 + q3 =? 244) eqn:E; [|lia].
    apply N.eqb_eq in E. lia.
Qed.

Lemma scalar_true (c : N) :
  c < 55296 \/ (57344 <= c /\ c <= 1114111) -> scalar c = true.
Proof.
  intros [H|[H1 H2]]; unfold scalar; apply orb_true_iff.
  - left. now apply N.ltb_lt.
  - right. apply andb_true_iff. split; now apply N.leb_le.
Qed.

Lemma utf8_decode_scalar_le (n : nat) :
  forall data, (List.length data <= n)%nat ->
  forall text, utf8_decode data = Some text -> scalar_text text.
Proof.
  induction n as [|n IH]; intros data Hlen text Hdec.
  - destruct data; [|cbn in Hlen; lia]. cbn in Hdec. inversion Hdec.
    constructor.
  - destruct data as [|b0 r0];
      [cbn in Hdec; inversion Hdec; constructor|].
    cbn [List.length] in Hlen. cbn [utf8_decode] in Hdec.
    destruct (Byte.to_N b0 <? 128) eqn:E0.
    { destruct (utf8_decode r0) as [t|] eqn:Er; [|discriminate].
      cbn in Hdec. inversion Hdec; subst. apply N.ltb_lt in E0.
      constructor; [apply scalar_true; lia|].
      apply (IH r0); [lia | assumption]. }
    destruct (in_range 194 223 (Byte.to_N b0)) eqn:E1.
    { destruct r0 as [|b1 r1]; [discriminate|].
      destruct (continuation (Byte.to_N b1)) eqn:C1; [|discriminate].
      destruct (utf8_decode r1) as [t|] eqn:Er; [|discriminate].
      cbn in Hdec. inversion Hdec; subst.
      apply in_range_spec in E1. apply in_range_spec in C1.
      constructor; [apply scalar_true; lia|].
      apply (IH r1); [cbn [List.length] in Hlen; lia | assumption]. }
    destruct (in_range 224 239 (Byte.to_N b0)) eqn:E2.
    { destruct r0 as [|b1 [|b2 r2]]; try discriminate.
      destruct (in_range _ _ (Byte.to_N b1)) eqn:C1; [|discriminate].
      destruct (continuation (Byte.to_N b2)) eqn:C2; [|discriminate].
      cbn [andb] in Hdec.
      destruct (utf8_decode r2) as [t|] eqn:Er; [|discriminate].
      cbn in Hdec. inversion Hdec; subst.
      apply in_range_spec in E2. apply in_range_spec in C2.
      constructor.
      - apply scalar_true. revert C1.
        destruct (N.eqb_spec (Byte.to_N b0) 224) as [A|A];
          destruct (N.eqb_spec (Byte.to_N b0) 237) as [B|B]; intros C1;
          apply in_range_spec in C1; lia.
      - apply (IH r2); [cbn [List.length] in Hlen; lia | assumption]. }
    destruct (in_range 240 244 (Byte.to_N b0)) eqn:E3; [|discriminate].
    destruct r0 as [|b1 [|b2 [|b3 r3]]]; try discriminate.
    destruct (in_range _ _ (Byte.to_N b1)) eqn:C1; [|discriminate].
    destruct (continuation (Byte.to_N b2)) eqn:C2; [|discriminate].
    destruct (continuation (Byte.to_N b3)) eqn:C3; [|discriminate].
    cbn [andb] in Hdec.
    destruct (utf8_decode r3) as [t|] eqn:Er; [|discriminate].
    cbn in Hdec. inversion Hdec; subst.
    apply in_range_spec in E3.
    apply in_range_spec in C2. apply in_range_spec in C3.
    constructor.
    + apply scalar_true. revert C1.
      destruct (N.eqb_spec (Byte.to_N b0) 240) as [A|A];
        destruct (N.eqb_spec (Byte.to_N b0) 244) as [B|B]; intros C1;
        apply in_range_spec in C1; lia.
    + apply (IH r3); [cbn [List.length] in Hlen; lia | assumption].
Qed.

(** The strict decoder returns scalar values only. *)
Lemma utf8_decode_scalar (data : bytes) (text : str) :
  utf8_decode data = Some text -> scalar_text text.
Proof. now apply (utf8_decode_scalar_le (List.length data)). Qed.

(** Decoding what was encoded from scalar values gives the text back. *)
Lemma utf8_decode_encode (t : str) :
  scalar_text t -> utf8_decode (utf8_encode t) = Some t.
Proof.
  induction 1 as [|c t Hc Ht IH]; [reflexivity|].
  rewrite utf8_encode_cons, decode_encode_char by assumption.
  now rewrite IH.
Qed.

Lemma latin1_scalar (data : bytes) : scalar_text (latin1_decode data).
Proof.
  unfold latin1_decode, scalar_text. apply Forall_map, Forall_forall.
  intros b _. apply scalar_true. left.
  pose proof (Byte.to_N_bounded b). lia.
Qed.

Lemma universal_newlines_scalar_le (n : nat) :
  forall t, (List.length t <= n)%nat -> scalar_text t ->
            scalar_text (universal_newlines t).
Proof.
  induction n as [|n IH]; intros t Hn Ht.
  - destruct t; [constructor | cbn in Hn; lia].
  - destruct t as [|c t]; [constructor|].
    cbn [universal_newlines]. cbn [List.length] in Hn.
    inversion Ht as [|? ? Hc Ht']; subst.
    destruct (c =? carriage_return).
    + destruct t as [|d t]; [repeat constructor|].
      cbn [List.length] in Hn. inversion Ht' as [|? ? Hd Ht'']; subst.
      destruct (d =? newline); constructor; try reflexivity.
      * apply IH; [lia | assumption].
      * apply IH; [cbn [List.length]; lia | assumption].
    + constructor; [assumption|]. apply IH; [lia | assumption].
Qed.

Lemma universal_newlines_scalar (t : str) :
  scalar_text t -> scalar_text (universal_newlines t).
Proof. now apply (universal_newlines_scalar_le (List.length t)). Qed.

Lemma scalar_names_unfold (files : list (str * file))
      (dirs : list (str * dir)) :
  scalar_names (Dir files dirs) <->
  Forall (fun e => scalar_text (fst e)) files /\
  Forall (fun e => scalar_text (fst e) /\ scalar_names (snd e)) dirs.
Proof.
  cbn [scalar_names].
  assert (H : (fix all (l : list (str * dir)) : Prop :=
                 match l with
                 | [] => True
                 | (n, sub) :: l' =>
                     scalar_text n /\ scalar_names sub /\ all l'
                 end) dirs <->
              Forall (fun e => scalar_text (fst e) /\ scalar_names (snd e))
                     dirs).
  { induction dirs as [|[n sub] dirs IH].
    - split; [constructor | trivial].
    - rewrite Forall_cons_iff, <- IH. cbn [fst snd]. tauto. }
  rewrite H. reflexivity.
Qed.

Lemma output_file_scalar : scalar_text output_file.
Proof. unfold scalar_text. repeat constructor. Qed.

Lemma open_sink_scalar (slot : list str -> nat) (cwd d : dir) :
  open_sink slot cwd = Some d -> scalar_names cwd -> scalar_names d.
Proof.
  destruct cwd as [files dirs]. cbn [open_sink].
  destruct (has_name output_file dirs); [discriminate|].
  intros H Hn. apply scalar_names_unfold in Hn as [Hf Hd].
  destruct (has_name output_file files); inversion H; subst;
    apply scalar_names_unfold; (split; [|assumption]).
  - rewrite <- Forall_map in *. now rewrite set_entry_names.
  - rewrite Forall_forall in *. intros e He.
    apply insert_at_In in He as [->|He]; [apply output_file_scalar|].
    now apply Hf.
Qed.

Lemma file_at_scalar (d : dir) (q : list str) (name : str) (f : file) :
  file_at d q name f -> scalar_names d ->
  Forall scalar_text q /\ scalar_text name.
Proof.
  induction 1 as [files dirs name f Hin | files dirs n sub q name f Hd Hq IH];
    intros Hn; apply scalar_names_unfold in Hn as [Hf Hdirs].
  - split; [constructor|]. rewrite Forall_forall in Hf.
    apply (Hf (name, f) Hin).
  - rewrite Forall_forall in Hdirs. destruct (Hdirs (n, sub) Hd) as [Hn Hs].
    destruct (IH Hs) as [Hq' Hname]. split; [now constructor | assumption].
Qed.

Lemma str_join_scalar (l : list str) :
  Forall scalar_text l -> scalar_text (str_join [slash] l).
Proof.
  induction 1 as [|x l Hx Hl IH]; [constructor|].
  destruct l as [|y l]; [exact Hx|].
  change (str_join [slash] (x :: y :: l))
    with (x ++ slash :: str_join [slash] (y :: l)).
  apply Forall_app. split; [exact Hx|]. constructor; [reflexivity | exact IH].
Qed.

Lemma block_writes_scalar (parts : list str) (name c : str) :
  Forall scalar_text parts -> scalar_text name -> scalar_text c ->
  Forall scalar_text (block_writes (mkBlock parts name c)).
Proof.
  intros Hp Hn Hc. unfold block_writes. cbn [b_parts b_name b_content].
  repeat constructor; try assumption.
  apply Forall_app. split.
  - apply str_join_scalar. apply Forall_app. split; [assumption|].
    now constructor.
  - repeat constructor.
Qed.

(** X12. The output file is well-formed UTF-8 whatever bytes the input
    files hold, as long as the names of the tree are texts of Unicode
    scalar values: decoding it strictly gives back the document, the
    concatenation of the texts of the blocks. *)
Theorem output_file_is_utf8
        (visible : list str -> bytes) (slot : list str -> nat)
        (cwd cwd1 : dir) (st : state) :
  scalar_names cwd ->
  generate_arcade_project_files visible slot cwd = Some (cwd1, st) ->
  exists data,
    output_of cwd1 = Some (regular data) /\
    utf8_decode data = Some (List.concat (written (trace st))) /\
    List.concat (written (trace st)) = flat_map block_text (emitted st).
Proof.
  intros Hn Hrun.
  destruct (run_state visible slot _ _ _ Hrun) as (Hw & _ & _ & Hout & _).
  eexists. split; [exact Hout|]. split.
  2:{ rewrite Hw. apply concat_block_writes. }
  apply utf8_decode_encode.
  assert (Hall : Forall scalar_text (written (trace st))).
  { destruct (run_returns visible slot _ _ _ Hrun) as (d & Ho & _ & _ & ->).
    cbn [emit trace]. rewrite written_app, written_prints, app_nil_r.
    rewrite walk_visited.
    apply (loop_invariant visible
             (fun s => Forall scalar_text (written (trace s))));
      [|constructor].
    intros parts name f s s' Hin Hout' Hs.
    destruct (visited_file_at d [] parts name f Hin) as (q & Hq & Hat).
    cbn [app] in Hq. subst q.
    destruct (file_at_scalar d parts name f Hat
                (open_sink_scalar slot cwd d Ho Hn)) as [Hp Hname].
    destruct Hout' as [Hr | Hr Hl Hss | He Hp' | He Hl Hx Hb | msg He Hr
                       | data text He Hr Hd Hc | data text He Hr Hd Hc
                       | data data' He Hr Hd Hr' Hc | data He Hr Hd Hc];
      cbn [py_print emit write_block raise_uncaught trace];
      rewrite ?written_app, ?written_writes; cbn [written];
      rewrite ?app_nil_r; try assumption.
    - apply Forall_app. split; [assumption|].
      apply block_writes_scalar; try assumption.
      apply universal_newlines_scalar. now apply (utf8_decode_scalar data).
    - apply Forall_app. split; [assumption|].
      apply block_writes_scalar; try assumption.
      apply universal_newlines_scalar. apply latin1_scalar. }
  clear - Hall. induction Hall as [|w ws Hw' _ IH]; [constructor|].
  cbn [List.concat]. apply Forall_app. now split.
Qed.

(** X13. Reading as UTF-8 and writing as UTF-8 undo each other: what the
    strict decoder accepts is a text of scalar values whose encoding is the
    very bytes that were read, and the encoding of a text of scalar values
    decodes to that text. *)
Theorem utf8_round_trips :
  (forall data text,
      utf8_decode data = Some text ->
      scalar_text text /\ utf8_encode text = data) /\
  (forall text,
      scalar_text text -> utf8_decode (utf8_encode text) = Some text).
Proof.
  split.
  - intros data text H. split.
    + now apply (utf8_decode_scalar data).
    + now apply utf8_roundtrip.
  - apply utf8_decode_encode.
Qed.

(** ** What the platform can change *)

Section PlatformFacts.

Variables visible visible' : list str -> bytes.

(** Two runs that differ in what has reached the disk stay in step: the
    same steps raise, the blocks come from the same entries, and the
    blocks of the input files are the same. *)
Definition in_step (s s' : state) : Prop :=
  raised s = raised s' /\
  map block_place (emitted s) = map block_place (emitted s') /\
  filter from_input (emitted s) = filter from_input (emitted s').

Lemma step_in_step (s s' : state) (e : list str * (str * file)) :
  in_step s s' -> in_step (body visible s e) (body visible' s' e).
Proof.
  intros (Hr & Hp & Hi). destruct e as [parts [name f]].
  unfold body. cbn [fst snd].
  assert (Hr' : raised (process_file visible parts s (name, f)) =
                raised (process_file visible' parts s' (name, f))).
  { now rewrite !process_file_raises, Hr. }
  split; [exact Hr'|].
  rewrite !process_file_emitted, <- Hr', !map_app, !filter_app, Hp, Hi.
  destruct (_ && _ && _)%bool; [|now split].
  destruct (is_sink parts name) eqn:Hs.
  - apply is_sink_place in Hs. inversion Hs; subst.
    destruct (decoded_sink visible s f) as [c ->].
    destruct (decoded_sink visible' s' f) as [c' ->].
    cbn [filter map block_place b_parts b_name].
    rewrite !from_input_sink. now split.
  - replace (decoded visible' s' parts name f)
      with (decoded visible s parts name f)
      by (unfold decoded, open_read; now rewrite Hs).
    now split.
Qed.

Lemma loop_in_step (l : list (list str * (str * file))) :
  forall s s',
    in_step s s' ->
    in_step (fold_left (body visible) l s) (fold_left (body visible') l s').
Proof.
  induction l as [|e l IH]; intros s s' H; [exact H|].
  cbn [fold_left]. apply IH. now apply step_in_step.
Qed.

End PlatformFacts.

(** X14. How the sink is buffered can change one block only, the one of
    the output file itself: two runs on the same working directory that
    differ in what part of the sink has reached the disk emit blocks for
    the same entries in the same order, and their blocks for the input
    files are the same, contents included. *)
Theorem buffering_changes_only_own_block
        (visible visible' : list str -> bytes) (slot : list str -> nat)
        (cwd cwd1 cwd1' : dir) (st st' : state) :
  generate_arcade_project_files visible slot cwd = Some (cwd1, st) ->
  generate_arcade_project_files visible' slot cwd = Some (cwd1', st') ->
  map block_place (emitted st) = map block_place (emitted st') /\
  filter from_input (emitted st) = filter from_input (emitted st') /\
  file_count st = file_count st'.
Proof.
  intros Hrun Hrun'.
  destruct (run_state visible slot _ _ _ Hrun) as (_ & Hc & _).
  destruct (run_state visible' slot _ _ _ Hrun') as (_ & Hc' & _).
  destruct (run_returns visible slot _ _ _ Hrun) as (d & Ho & _ & _ & Hst).
  destruct (run_returns visible' slot _ _ _ Hrun')
    as (d' & Ho' & _ & _ & Hst').
  rewrite Ho in Ho'. inversion Ho'; subst d'.
  destruct (loop_in_step visible visible' (visited [] d)
              init_state init_state) as (_ & Hp & Hi).
  { repeat split. }
  rewrite <- !walk_visited in Hp, Hi.
  assert (Hp' : map block_place (emitted st) = map block_place (emitted st')).
  { rewrite Hst, Hst'. exact Hp. }
  split; [exact Hp' | split].
  - rewrite Hst, Hst'. exact Hi.
  - rewrite Hc, Hc', <- (length_map block_place), Hp'. apply length_map.
Qed.

(** ** The further properties on concrete projects *)

Lemma locked_tree_unique : unique_names locked_tree.
Proof.
  cbn. repeat split; distinct_names.
Defined.

Lemma sample_tree_scalar : scalar_names sample_tree.
Proof.
  cbn. unfold scalar_text. repeat split; repeat constructor.
Defined.

Lemma locked_run :
  generate_arcade_project_files unflushed listed_last locked_tree =
  Some (fst (run_of unflushed listed_last locked_tree),
        snd (run_of unflushed listed_last locked_tree)).
Proof. run_returns. Qed.

Lemma sample_run_flushed :
  generate_arcade_project_files flushed listed_last sample_tree =
  Some (fst (run_of flushed listed_last sample_tree),
        snd (run_of flushed listed_last sample_tree)).
Proof. run_returns. Qed.

(** X1 on the sample project: a.txt, notes.dat and src/b.js, in this
    order. *)
Lemma blocks_in_walk_order_witness :
  exists cwd1 st,
    generate_arcade_project_files unflushed listed_last sample_tree
    = Some (cwd1, st) /\
    map block_place (filter from_input (emitted st)) =
      [([], lit "a.txt"); ([], lit "notes.dat"); ([lit "src"], lit "b.js")].
Proof.
  do 2 eexists. split; [exact sample_run|].
  rewrite (blocks_in_walk_order unflushed listed_last sample_tree _ _
             sample_run).
  vm_compute. reflexivity.
Defined.

(** X4 on the project with a Windows line end. *)
Lemma no_carriage_return_in_content_witness :
  exists cwd1 st,
    generate_arcade_project_files unflushed listed_last crlf_tree
    = Some (cwd1, st) /\
    Forall (fun b => ~ In carriage_return (b_content b)) (emitted st).
Proof.
  do 2 eexists. split; [exact crlf_run|].
  apply (no_carriage_return_in_content unflushed listed_last crlf_tree _ _
           crlf_run).
Defined.

(** X6 on the sample project: a.txt is opened, and it is eligible. *)
Lemma opens_only_eligible_files_witness :
  exists cwd1 st,
    generate_arcade_project_files unflushed listed_last sample_tree
    = Some (cwd1, st) /\
    In (EvOpen [] (lit "a.txt") utf_8) (trace st) /\
    lit "a.txt" <> package_lock /\
    binary_excluded (lit "a.txt") = false.
Proof.
  do 2 eexists. split; [exact sample_run|].
  assert (Hin : In (EvOpen [] (lit "a.txt") utf_8)
                   (trace (snd (run_of unflushed listed_last sample_tree)))).
  { vm_compute. tauto. }
  split; [exact Hin|].
  destruct (opens_only_eligible_files unflushed listed_last sample_tree _ _
              sample_run [] (lit "a.txt") utf_8 Hin)
    as (_ & _ & H3 & H4 & _).
  split; [exact H3 | exact H4].
Defined.

(** X7 on the sample project: notes.dat is opened as Latin-1, after it was
    opened as UTF-8. *)
Lemma latin1_only_after_utf8_failure_witness :
  exists cwd1 st,
    generate_arcade_project_files unflushed listed_last sample_tree
    = Some (cwd1, st) /\
    In (EvOpen [] (lit "notes.dat") latin_1) (trace st) /\
    In (EvOpen [] (lit "notes.dat") utf_8) (trace st).
Proof.
  do 2 eexists. split; [exact sample_run|].
  assert (Hin : In (EvOpen [] (lit "notes.dat") latin_1)
                   (trace (snd (run_of unflushed listed_last sample_tree)))).
  { vm_compute. tauto. }
  split; [exact Hin|].
  apply (latin1_only_after_utf8_failure unflushed listed_last sample_tree _ _
           sample_run [] (lit "notes.dat") Hin).
Defined.

(** X8 on the project with a file that cannot be opened. *)
Lemma read_error_is_reported_witness :
  exists cwd1 st,
    generate_arcade_project_files unflushed listed_last locked_tree
    = Some (cwd1, st) /\
    In (EvPrint (lit "Error reading secret.txt: Permission denied"))
       (trace st) /\
    filter (block_for [] (lit "secret.txt")) (emitted st) = [].
Proof.
  do 2 eexists. split; [exact locked_run|].
  destruct (read_error_is_reported unflushed listed_last locked_tree _ _
              [] (lit "secret.txt")
              (mkFile true (ReadError (lit "Permission denied"))
                      (ReadError (lit "Permission denied")) false)
              (lit "Permission denied")
              locked_tree_unique locked_run ltac:(in_tree) eq_refl eq_refl)
    as (H1 & H2 & _).
  split; [exact H1 | exact H2].
Defined.

(** X9 on the same project: moving.dat is not UTF-8 and is gone at the
    retry. *)
Lemma retry_failure_is_reported_witness :
  exists cwd1 st,
    generate_arcade_project_files unflushed listed_last locked_tree
    = Some (cwd1, st) /\
    In (EvPrint (lit "Skipping unreadable file: moving.dat")) (trace st) /\
    filter (block_for [] (lit "moving.dat")) (emitted st) = [].
Proof.
  do 2 eexists. split; [exact locked_run|].
  destruct (retry_failure_is_reported unflushed listed_last locked_tree _ _
              [] (lit "moving.dat")
              (mkFile true (ReadOk [Byte.xff; Byte.x41])
                      (ReadError (lit "No such file or directory")) false)
              [Byte.xff; Byte.x41] (lit "No such file or directory")
              locked_tree_unique locked_run ltac:(in_tree)
              eq_refl eq_refl eq_refl eq_refl)
    as (H1 & _ & H3).
  split; [exact H1 | exact H3].
Defined.

(** X11 on two entries of the sample project. *)
Lemma rel_path_names_one_entry_witness :
  rel_path [lit "src"] (lit "b.js") = lit "src/b.js" /\
  ([lit "src"] = [lit "src"] /\ lit "b.js" = lit "b.js").
Proof.
  split; [reflexivity|].
  apply (rel_path_names_one_entry [lit "src"] [lit "src"]
           (lit "b.js") (lit "b.js")).
  - repeat (constructor; [unfold slash_free; cbn; intuition discriminate|]).
    constructor.
  - repeat (constructor; [unfold slash_free; cbn; intuition discriminate|]).
    constructor.
  - reflexivity.
Defined.

(** X12 on the sample project, whose notes.dat is not UTF-8. *)
Lemma output_file_is_utf8_witness :
  exists cwd1 st data,
    generate_arcade_project_files unflushed listed_last sample_tree
    = Some (cwd1, st) /\
    output_of cwd1 = Some (regular data) /\
    utf8_decode data = Some (List.concat (written (trace st))).
Proof.
  destruct (output_file_is_utf8 unflushed listed_last sample_tree _ _
              sample_tree_scalar sample_run) as (data & H1 & H2 & _).
  do 2 eexists. exists data. split; [exact sample_run|].
  split; [exact H1 | exact H2].
Defined.

(** X14 on the sample project, with nothing flushed and with everything
    flushed. *)
Lemma buffering_changes_only_own_block_witness :
  exists cwd1 st cwd1' st',
    generate_arcade_project_files unflushed listed_last sample_tree
    = Some (cwd1, st) /\
    generate_arcade_project_files flushed listed_last sample_tree
    = Some (cwd1', st') /\
    filter from_input (emitted st) = filter from_input (emitted st') /\
    emitted st <> emitted st'.
Proof.
  do 4 eexists. split; [exact sample_run|].
  split; [exact sample_run_flushed|]. split.
  - apply (buffering_changes_only_own_block unflushed flushed listed_last
             sample_tree _ _ _ _ sample_run sample_run_flushed).
  - vm_compute. discriminate.
Defined.



